(** * househunt: the authentication core and the configuration loader

    A shallow embedding of
    - the configuration loader of the server command, package [main]
      ([confSliceOf] and the [envMap] entries that call it),
    - the service of package [auth] ([RegisterAccount], [startActivation],
      [inTx]) over its [Store] and [Tx] interfaces,
    - the transactional store behind [auth.Tx], package [internal/auth/db],
      whose implementation is not among the sources and is modelled from
      the specification and from the cases of its tests.

    Go values are modelled as follows: [int] as [Z], [string] as [string]
    (a sequence of bytes), [error] as [option error] with [None] for [nil],
    a pair [(T, error)] as [Result T], a pointer argument that the callee
    fills in as an argument together with the updated record in the result,
    [time.Time] as [Z] with [0] for the zero time, [*time.Time] as
    [option Time], a slice that can be [nil] as [option (list _)]. *)

From Stdlib Require Import ZArith List String Ascii Bool Lia.
From Stdlib Require Import Permutation Sorted.
Import ListNotations.
Local Open Scope string_scope.
Local Open Scope Z_scope.

Set Implicit Arguments.

(* ------------------------------------------------------------------ *)
(** ** Package [errors] *)

Module errors.

(** Go error values.  [New] is a sentinel made by [errors.New] (its text
    stands for its identity), [Errorf] a [fmt.Errorf] without [%w],
    [Wrapf] a [fmt.Errorf] whose format has one [%w], [Joined] the result
    of [errors.Join] on two non-nil errors. *)
Inductive error : Type :=
| New (text : string)
| Errorf (format : string) (args : list Z)
| Wrapf (format : string) (args : list Z) (err : error)
| Joined (a b : error).

Fixpoint eqb (x y : error) : bool :=
  match x, y with
  | New s, New t => String.eqb s t
  | Errorf f a, Errorf g b =>
      String.eqb f g && (if list_eq_dec Z.eq_dec a b then true else false)
  | Wrapf f a e, Wrapf g b e' =>
      String.eqb f g && (if list_eq_dec Z.eq_dec a b then true else false)
      && eqb e e'
  | Joined a b, Joined c d => eqb a c && eqb b d
  | _, _ => false
  end.

(** [errors.Is]: the error itself, or anything reachable through
    [Unwrap() error] and [Unwrap() []error], equals the target. *)
Fixpoint Is (err target : error) : bool :=
  eqb err target ||
  match err with
  | New _ | Errorf _ _ => false
  | Wrapf _ _ e => Is e target
  | Joined a b => Is a target || Is b target
  end.

(** [errors.Join(a, b)]: nil arguments are dropped, nil when all are. *)
Definition Join (a b : option error) : option error :=
  match a, b with
  | None, None => None
  | Some x, None => Some x
  | None, Some y => Some y
  | Some x, Some y => Some (Joined x y)
  end.

End errors.

Abbreviation error := errors.error.

(** A Go result pair [(T, error)] of which exactly one side is used. *)
Inductive Result (T : Type) : Type :=
| Ok (v : T)
| Err (e : error).
Arguments Ok {T} v.
Arguments Err {T} e.

(* ------------------------------------------------------------------ *)
(** ** Package [main]: the configuration loader *)

Module main.

(** [math.MaxInt64]. *)
Definition MaxInt64 : Z := 9223372036854775807.

(** [len(v)] of a Go string: its number of bytes. *)
Definition len (v : string) : Z := Z.of_nat (String.length v).

(** [strings.Split(v, sep)] for a separator of one byte: the pieces of
    [v] between the separators, [n+1] pieces for [n] separators. *)
Fixpoint Split (v : string) (sep : ascii) : list string :=
  match v with
  | EmptyString => [EmptyString]
  | String c rest =>
      if Ascii.eqb c sep then EmptyString :: Split rest sep
      else match Split rest sep with
           | [] => [String c EmptyString]
           | piece :: pieces => String c piece :: pieces
           end
  end.

Definition comma : ascii := ","%char.

Section ConfSliceOf.
Variable T : Type.
(** [elemFunc], e.g. [krypto.ParseKey] in [envMap]. *)
Variable elemFunc : string -> Result T.

(** The [for i, elem := range strings.Split(v, ",")] loop, from index
    [i] on; [tgt] is the slice behind the pointer. *)
Fixpoint confSliceOf_range (i : Z) (elems : list string) (tgt : list T)
  : list T * option error :=
  match elems with
  | [] => (tgt, None)
  | elem :: rest =>
      match elemFunc elem with
      | Err err =>
          (tgt, Some (errors.Wrapf "failed to parse element %d: %w" [i] err))
      | Ok parsed => confSliceOf_range (i + 1) rest (tgt ++ [parsed])
      end
  end.

(** [confSliceOf(v, tgt, elemFunc, minLen, maxLen)]: the slice behind
    [tgt] after the call, and the returned error. *)
Definition confSliceOf (v : string) (tgt : list T) (minLen maxLen : Z)
  : list T * option error :=
  match confSliceOf_range 0 (Split v comma) tgt with
  | (tgt', Some err) => (tgt', Some err)
  | (tgt', None) =>
      if (len v <? minLen) || (len v >? maxLen) then
        (tgt', Some (errors.Errorf
                       "slice length %d not in range [%d, %d] (inclusive)"
                       [len v; minLen; maxLen]))
      else (tgt', None)
  end.

(** All the pieces parse, to the elements [ps]. *)
Fixpoint parsesTo (elems : list string) (ps : list T) : Prop :=
  match elems, ps with
  | [], [] => True
  | elem :: rest, p :: ps' => elemFunc elem = Ok p /\ parsesTo rest ps'
  | _, _ => False
  end.

(** The [envMap] entries HTTP_COOKIE_KEYS and DB_ENCRYPTION_KEYS. *)
Definition envMap_keys (v : string) (keys : list T)
  : list T * option error :=
  confSliceOf v keys 2 MaxInt64.

End ConfSliceOf.

(** No comma among the bytes of [v]. *)
Fixpoint noComma (v : string) : bool :=
  match v with
  | EmptyString => true
  | String c rest => negb (Ascii.eqb c comma) && noComma rest
  end.

End main.

(* ------------------------------------------------------------------ *)
(** ** State passing *)

(** A computation over a state [S] with a result in [A]. *)
Definition M (S A : Type) : Type := S -> A * S.

Definition ret {S A : Type} (a : A) : M S A := fun s => (a, s).

Definition bind {S A B : Type} (c : M S A) (k : A -> M S B) : M S B :=
  fun s => let (a, s') := c s in k a s'.

Declare Scope m_scope.
Delimit Scope m_scope with m.
Notation "x <- c ;; k" := (bind c (fun x => k))
  (at level 61, c at next level, right associativity) : m_scope.
Notation "' p <- c ;; k" := (bind c (fun x => match x with p => k end))
  (at level 61, p pattern, c at next level, right associativity) : m_scope.
Notation "c ;;; k" := (bind c (fun _ => k))
  (at level 61, right associativity) : m_scope.

(* ------------------------------------------------------------------ *)
(** ** Packages [email] and [errorz] *)

Module email.
(** Modelled from the spec: [email.Address], whose declaration is not among
    the sources: a parsed, case-normalised address (section 3). *)
Definition Address : Type := string.
End email.

Module errorz.
(** Modelled from the spec: the sentinel errors of package [errorz], which
    the sources only refer to ([NotFound], [ConstraintViolated] and
    [TransactionBadState] of section 7); the texts stand for their
    identities. *)
Definition ErrNotFound : error := errors.New "not found".
(** Modelled from the spec: see [ErrNotFound]. *)
Definition ErrConstraintViolated : error := errors.New "constraint violated".
(** Modelled from the spec: see [ErrNotFound]. *)
Definition ErrTxBadState : error := errors.New "transaction in bad state".
End errorz.

(* ------------------------------------------------------------------ *)
(** ** Package [auth]: the data model *)

Module auth.

(** [time.Time], in seconds, and [time.Duration]. *)
Definition Time : Type := Z.
Definition Duration : Type := Z.

(** Modelled from the spec: the value types of package [auth] whose
    declarations are not among the sources.  [Argon2Hash] is a
    self-describing hash, taken by its encoded form; [Password] a plaintext
    password; [Token] the raw token that is mailed and never stored;
    [TokenPurpose] a string type, as the tests assign a string to it. *)
Definition Argon2Hash : Type := string.
(** Modelled from the spec: see [Argon2Hash]. *)
Definition Password : Type := string.
(** Modelled from the spec: see [Argon2Hash]. *)
Definition Token : Type := string.
(** Modelled from the spec: see [Argon2Hash]. *)
Definition TokenPurpose : Type := string.
(** Modelled from the spec: the constant [TokenPurposeActivate], whose value
    is not among the sources. *)
Definition TokenPurposeActivate : TokenPurpose := "activate".

Definition ErrDuplicateAccount : error := errors.New "duplicate account".

Module User.
(** Modelled from the spec: [auth.User], whose declaration is not among the
    sources; the fields are those of section 3, under the names the
    sources use. *)
Record t : Type := mk {
  ID : Z;
  Email : email.Address;
  PasswordHash : Argon2Hash;
  IsActive : bool;
  CreatedAt : Time;
  UpdatedAt : Time
}.
End User.

Module EmailToken.
(** Modelled from the spec: [auth.EmailToken], whose declaration is not
    among the sources; the fields are those of section 3, under the names
    the sources use.  [ConsumedAt] is a [*time.Time]. *)
Record t : Type := mk {
  ID : Z;
  TokenHash : Argon2Hash;
  UserID : Z;
  Email : email.Address;
  Purpose : TokenPurpose;
  CreatedAt : Time;
  ConsumedAt : option Time
}.
End EmailToken.

Module Credentials.
(** Modelled from the spec: [auth.Credentials], whose declaration is not
    among the sources: an email and a password. *)
Record t : Type := mk {
  Email : email.Address;
  Password : auth.Password
}.
End Credentials.

Module UserFilter.
(** Modelled from the spec: [auth.UserFilter], whose declaration is not
    among the sources.  [IDs] and [Emails] are slices: [None] is the nil
    slice, [Some []] the empty slice that is not nil; [IsActive] is a
    [*bool]. *)
Record t : Type := mk {
  IDs : option (list Z);
  Emails : option (list email.Address);
  IsActive : option bool
}.
End UserFilter.

(** The anonymous struct handed to the activation mail template. *)
Record ActivationData : Type := mkActivationData {
  data_ID : Z;
  data_Token : Token
}.

(** *** The interfaces the service is built on *)

(** [Store] and [Tx].  [W] is the state behind the store and the other
    collaborators, [Ctx] is [context.Context], [T] the transaction
    handle.  A method with a pointer receiver argument returns the record
    as the callee left it. *)
Class Store (W Ctx T : Type) : Type := {
  BeginTx : Ctx -> M W (Result T);
  Commit : T -> M W (option error);
  Rollback : T -> M W (option error);
  CreateUser : T -> User.t -> M W (User.t * option error);
  UpdateUser : T -> User.t -> M W (User.t * option error);
  FindUserByEmail : T -> email.Address -> M W (Result User.t);
  CreateEmailToken : T -> EmailToken.t -> M W (EmailToken.t * option error);
  UpdateEmailToken : T -> EmailToken.t -> M W (EmailToken.t * option error);
  FindEmailTokenByID : T -> Z -> M W (Result EmailToken.t)
}.

(** What else the service calls: the primitives of this package that are
    not among the sources ([Password.Hash], [GenerateToken],
    [Token.Hash], all of which draw randomness), [email.Service.Send],
    the injected [errHandler] and [context.WithTimeout]. *)
Class Deps (W Ctx : Type) : Type := {
  Password_Hash : Password -> M W (Result Argon2Hash);
  GenerateToken : M W (Result Token);
  Token_Hash : Token -> M W (Result Argon2Hash);
  Send : Ctx -> string -> email.Address -> ActivationData -> M W (option error);
  errHandler : error -> M W unit;
  WithTimeout : Ctx -> Duration -> Ctx
}.

(** *** The service *)

(** One call made by the service, with what it returned. *)
Inductive Event (T : Type) : Type :=
| EvPasswordHash (p : Password) (r : Result Argon2Hash)
| EvGenerateToken (r : Result Token)
| EvTokenHash (tok : Token) (r : Result Argon2Hash)
| EvBeginTx (r : Result T)
| EvCommit (tx : T) (r : option error)
| EvRollback (tx : T) (r : option error)
| EvFindUserByEmail (tx : T) (a : email.Address) (r : Result User.t)
| EvCreateUser (tx : T) (u : User.t) (r : User.t * option error)
| EvCreateEmailToken (tx : T) (t : EmailToken.t) (r : EmailToken.t * option error)
| EvSend (template : string) (to : email.Address) (d : ActivationData)
         (r : option error)
| EvErrHandler (e : error).

Section Service.
Context {W Ctx T : Type} {store : Store W Ctx T} {deps : Deps W Ctx}.
(** [Service.workTimeout]. *)
Variable workTimeout : Duration.

(** The state a run of the service goes through: the world behind the
    collaborators, the calls made so far (oldest first), the counter of
    [Service.wg], and the goroutines started and not yet run, each with
    the variables it captured. *)
Record State : Type := mkState {
  world : W;
  calls : list (Event T);
  wg : Z;
  goroutines : list (Ctx * User.t)
}.

(** Make the call [op] and record it. *)
Definition call {A : Type} (op : M W A) (ev : A -> Event T) : M State A :=
  fun s =>
    let (a, w) := op (world s) in
    (a, mkState w (calls s ++ [ev a]) (wg s) (goroutines s)).

Definition wg_Add (n : Z) : M State unit :=
  fun s => (tt, mkState (world s) (calls s) (wg s + n) (goroutines s)).

(** The [go] statement. *)
Definition go (ctx : Ctx) (user : User.t) : M State unit :=
  fun s => (tt, mkState (world s) (calls s) (wg s)
                        (goroutines s ++ [(ctx, user)])).

Local Open Scope m_scope.

(** [Service.inTx].  [f] is a closure: [L] holds the variables it
    captures and assigns. *)
Definition inTx {L : Type} (ctx : Ctx)
    (f : T -> L -> M State (L * option error)) (l : L)
  : M State (L * option error) :=
  r <- call (BeginTx ctx) (@EvBeginTx T) ;;
  match r with
  | Err err => ret (l, Some err)
  | Ok tx =>
      '(l', err) <- f tx l ;;
      match err with
      | Some err =>
          rBackErr <- call (Rollback tx) (EvRollback tx) ;;
          match rBackErr with
          | Some rBackErr =>
              ret (l', errors.Join (Some err) (Some rBackErr))
          | None => ret (l', Some err)
          end
      | None =>
          err <- call (Commit tx) (EvCommit tx) ;;
          match err with
          | Some err => ret (l', Some err)
          | None => ret (l', None)
          end
      end
  end.

(** The function literal that [startActivation] passes to [inTx]; it
    captures [user] and [emailToken]. *)
Definition startActivation_tx (tx : T) (l : User.t * EmailToken.t)
  : M State ((User.t * EmailToken.t) * option error) :=
  let (user, emailToken) := l in
  r <- call (FindUserByEmail tx (User.Email user))
            (EvFindUserByEmail tx (User.Email user)) ;;
  match r with
  | Ok _ => ret ((user, emailToken), Some ErrDuplicateAccount)
  | Err txErr =>
      if negb (errors.Is txErr errorz.ErrNotFound) then
        ret ((user, emailToken), Some txErr)
      else
        '(user', txErr) <- call (CreateUser tx user) (EvCreateUser tx user) ;;
        match txErr with
        | Some txErr => ret ((user', emailToken), Some txErr)
        | None =>
            let emailToken1 :=
              EmailToken.mk (EmailToken.ID emailToken)
                            (EmailToken.TokenHash emailToken)
                            (User.ID user')
                            (EmailToken.Email emailToken)
                            (EmailToken.Purpose emailToken)
                            (EmailToken.CreatedAt emailToken)
                            (EmailToken.ConsumedAt emailToken) in
            '(emailToken', txErr) <-
              call (CreateEmailToken tx emailToken1)
                   (EvCreateEmailToken tx emailToken1) ;;
            match txErr with
            | Some txErr => ret ((user', emailToken'), Some txErr)
            | None => ret ((user', emailToken'), None)
            end
        end
  end.

(** [Service.startActivation]. *)
Definition startActivation (ctx : Ctx) (user : User.t)
  : M State (option error) :=
  r <- call GenerateToken (@EvGenerateToken T) ;;
  match r with
  | Err err => ret (Some err)
  | Ok token =>
      r <- call (Token_Hash token) (@EvTokenHash T token) ;;
      match r with
      | Err err => ret (Some err)
      | Ok tokenHash =>
          let emailToken :=
            EmailToken.mk 0 tokenHash 0 (User.Email user)
                          TokenPurposeActivate 0 None in
          '((user', emailToken'), err) <-
            inTx ctx startActivation_tx (user, emailToken) ;;
          match err with
          | Some err => ret (Some err)
          | None =>
              let d := mkActivationData (EmailToken.ID emailToken') token in
              err <- call (Send ctx "account-activation" (User.Email user') d)
                          (@EvSend T "account-activation" (User.Email user') d) ;;
              match err with
              | Some err => ret (Some err)
              | None => ret None
              end
          end
      end
  end.

(** [Service.RegisterAccount], up to its [return]: the goroutine is
    started, not run. *)
Definition RegisterAccount (ctx : Ctx) (c : Credentials.t)
  : M State (option error) :=
  r <- call (Password_Hash (Credentials.Password c))
            (@EvPasswordHash T (Credentials.Password c)) ;;
  match r with
  | Err err => ret (Some err)
  | Ok pwdHash =>
      let user := User.mk 0 (Credentials.Email c) pwdHash false 0 0 in
      wg_Add 1 ;;;
      go ctx user ;;;
      ret None
  end.

(** The body of the goroutine that [RegisterAccount] starts, with the
    [ctx] and [user] it captured; [wg.Done] is deferred to its end. *)
Definition RegisterAccount_goroutine (ctx : Ctx) (user : User.t)
  : M State unit :=
  let wCtx := WithTimeout ctx workTimeout in
  err <- startActivation wCtx user ;;
  match err with
  | Some err => call (errHandler err) (fun _ => @EvErrHandler T err)
  | None => ret tt
  end ;;;
  wg_Add (-1).

(** The scheduler picks the [n]-th goroutine not yet run, if there is
    one, and runs it to its end. *)
Definition schedule (n : nat) : M State bool :=
  fun s =>
    match nth_error (goroutines s) n with
    | None => (false, s)
    | Some (ctx, user) =>
        let rest := (firstn n (goroutines s) ++ skipn (S n) (goroutines s))%list in
        let s0 := mkState (world s) (calls s) (wg s) rest in
        (true, snd (RegisterAccount_goroutine ctx user s0))
    end.

(** [NewService]: a service starts with a fresh [sync.WaitGroup] and with
    no goroutine; [w] is the world its collaborators are in. *)
Definition NewService (w : W) : State := mkState w [] 0 [].


(** What happens to a service: a caller registers an account, or the
    scheduler runs one of the goroutines. *)
Inductive Action : Type :=
| DoRegister (ctx : Ctx) (c : Credentials.t)
| DoSchedule (n : nat).

Definition act (a : Action) (s : State) : State :=
  match a with
  | DoRegister ctx c => snd (RegisterAccount ctx c s)
  | DoSchedule n => snd (schedule n s)
  end.

(** The actions in order. *)
Definition acts (l : list Action) (s : State) : State :=
  fold_left (fun s a => act a s) l s.

End Service.

Arguments State : clear implicits.

(** What [inTx] returns when the function failed with [err] and
    [Rollback] returned [rBackErr]. *)
Definition afterRollback (err : error) (rBackErr : option error) : error :=
  match rBackErr with
  | Some r => errors.Joined err r
  | None => err
  end.

(** The ways through [startActivation] for [user]: the calls it makes,
    in order and with what they returned, and what it then returns.  The
    first three calls are shared by the paths that get that far. *)
Inductive ActivationPath (T : Type) (user : User.t)
  : list (Event T) -> option error -> Prop :=
| PathGenerateFails : forall e,
    ActivationPath user [EvGenerateToken T (Err e)] (Some e)
| PathHashFails : forall tok e,
    ActivationPath user
      [EvGenerateToken T (Ok tok); EvTokenHash T tok (Err e)] (Some e)
| PathBeginFails : forall tok h e,
    ActivationPath user
      [EvGenerateToken T (Ok tok); EvTokenHash T tok (Ok h);
       EvBeginTx (Err e)] (Some e)
| PathDuplicate : forall tok h tx found rb,
    ActivationPath user
      [EvGenerateToken T (Ok tok); EvTokenHash T tok (Ok h);
       EvBeginTx (Ok tx);
       EvFindUserByEmail tx (User.Email user) (Ok found);
       EvRollback tx rb]
      (Some (afterRollback ErrDuplicateAccount rb))
| PathFindFails : forall tok h tx e rb,
    errors.Is e errorz.ErrNotFound = false ->
    ActivationPath user
      [EvGenerateToken T (Ok tok); EvTokenHash T tok (Ok h);
       EvBeginTx (Ok tx);
       EvFindUserByEmail tx (User.Email user) (Err e);
       EvRollback tx rb]
      (Some (afterRollback e rb))
| PathCreateUserFails : forall tok h tx e user' e' rb,
    errors.Is e errorz.ErrNotFound = true ->
    ActivationPath user
      [EvGenerateToken T (Ok tok); EvTokenHash T tok (Ok h);
       EvBeginTx (Ok tx);
       EvFindUserByEmail tx (User.Email user) (Err e);
       EvCreateUser tx user (user', Some e');
       EvRollback tx rb]
      (Some (afterRollback e' rb))
| PathCreateTokenFails : forall tok h tx e user' tok' e' rb,
    errors.Is e errorz.ErrNotFound = true ->
    ActivationPath user
      [EvGenerateToken T (Ok tok); EvTokenHash T tok (Ok h);
       EvBeginTx (Ok tx);
       EvFindUserByEmail tx (User.Email user) (Err e);
       EvCreateUser tx user (user', None);
       EvCreateEmailToken tx
         (EmailToken.mk 0 h (User.ID user') (User.Email user)
                        TokenPurposeActivate 0 None)
         (tok', Some e');
       EvRollback tx rb]
      (Some (afterRollback e' rb))
| PathCommitFails : forall tok h tx e user' tok' e',
    errors.Is e errorz.ErrNotFound = true ->
    ActivationPath user
      [EvGenerateToken T (Ok tok); EvTokenHash T tok (Ok h);
       EvBeginTx (Ok tx);
       EvFindUserByEmail tx (User.Email user) (Err e);
       EvCreateUser tx user (user', None);
       EvCreateEmailToken tx
         (EmailToken.mk 0 h (User.ID user') (User.Email user)
                        TokenPurposeActivate 0 None)
         (tok', None);
       EvCommit tx (Some e')]
      (Some e')
| PathSend : forall tok h tx e user' tok' r,
    errors.Is e errorz.ErrNotFound = true ->
    ActivationPath user
      [EvGenerateToken T (Ok tok); EvTokenHash T tok (Ok h);
       EvBeginTx (Ok tx);
       EvFindUserByEmail tx (User.Email user) (Err e);
       EvCreateUser tx user (user', None);
       EvCreateEmailToken tx
         (EmailToken.mk 0 h (User.ID user') (User.Email user)
                        TokenPurposeActivate 0 None)
         (tok', None);
       EvCommit tx None;
       EvSend T "account-activation" (User.Email user')
              (mkActivationData (EmailToken.ID tok') tok) r]
      r.

Arguments Action : clear implicits.


(** The record that [RegisterAccount] builds for the hash [pwdHash]. *)
Definition inactiveUser (a : email.Address) (pwdHash : Argon2Hash) : User.t :=
  User.mk 0 a pwdHash false 0 0.

(** The user came out of [RegisterAccount]: nothing but the email and a
    hash that [Password.Hash] returned is set. *)
Definition fresh {T : Type} (evs : list (Event T)) (u : User.t) : Prop :=
  User.ID u = 0 /\ User.IsActive u = false
  /\ User.CreatedAt u = 0 /\ User.UpdatedAt u = 0
  /\ exists p, In (EvPasswordHash T p (Ok (User.PasswordHash u))) evs.

(** The token is a new activation token for the user that the same
    transaction created. *)
Definition linked {T : Type} (evs : list (Event T)) (tx : T)
    (t : EmailToken.t) : Prop :=
  EmailToken.ID t = 0 /\ EmailToken.Purpose t = TokenPurposeActivate
  /\ EmailToken.ConsumedAt t = None
  /\ exists u u' h tok,
       In (EvCreateUser tx u (u', None)) evs
       /\ In (EvTokenHash T tok (Ok h)) evs
       /\ EmailToken.UserID t = User.ID u'
       /\ EmailToken.Email t = User.Email u
       /\ EmailToken.TokenHash t = h.

End auth.

(* ------------------------------------------------------------------ *)
(** ** Package [internal/auth/db]: the store behind [auth.Tx] *)

Module db.
Import auth.

(** Modelled from the spec: the tables of the store.  The package
    [internal/auth/db] that implements [auth.Store] and [auth.Tx] is not
    among the sources; only its tests are.  Rows are kept in creation
    order. *)
Record Tables : Type := mkTables {
  users : list User.t;
  emailTokens : list EmailToken.t
}.

(** Modelled from the spec: the state of a store with one transaction,
    missing with the package.  [committed] is what is persisted, [work]
    what the open transaction sees, [badState] its failed state (section
    4.3), [nowFunc] the clock handed to [db.New] (the tests hand in a
    function that counts its calls) and [nowCalls] the number of calls
    made to it. *)
Record DB : Type := mkDB {
  committed : Tables;
  work : Tables;
  badState : bool;
  nowFunc : nat -> Time;
  nowCalls : nat
}.

(** The transaction handle: the store has one transaction at a time. *)
Definition Tx : Type := unit.

Definition setWork (d : DB) (t : Tables) : DB :=
  mkDB (committed d) t (badState d) (nowFunc d) (nowCalls d).

(** One call of the clock. *)
Definition now : M DB Time :=
  fun d => (nowFunc d (nowCalls d),
            mkDB (committed d) (work d) (badState d) (nowFunc d)
                 (S (nowCalls d))).

(** Store-assigned ids are positive and fresh: one more than the
    largest id in the table. *)
Definition nextID (ids : list Z) : Z := fold_right Z.max 0 ids + 1.

Definition findUser (id : Z) (us : list User.t) : option User.t :=
  find (fun x => User.ID x =? id) us.

Definition findToken (id : Z) (ts : list EmailToken.t) : option EmailToken.t :=
  find (fun x => EmailToken.ID x =? id) ts.

(** Modelled from the spec: [BeginTx], missing with the package.  The
    transaction starts from the persisted state, not failed. *)
Definition BeginTx (ctx : unit) : M DB (Result Tx) :=
  fun d => (Ok tt, mkDB (committed d) (committed d) false (nowFunc d)
                        (nowCalls d)).

(** Modelled from the spec: [Commit], missing with the package.  On a
    transaction in the failed state it fails with [ErrTxBadState] and
    persists nothing (section 4.3, and [inTxBadState] of the tests);
    otherwise the changes become the persisted state. *)
Definition Commit (tx : Tx) : M DB (option error) :=
  fun d =>
    if badState d then (Some errorz.ErrTxBadState, d)
    else (None, mkDB (work d) (work d) false (nowFunc d) (nowCalls d)).

(** Modelled from the spec: [Rollback], missing with the package.  The
    changes of the transaction are dropped. *)
Definition Rollback (tx : Tx) : M DB (option error) :=
  fun d => (None, mkDB (committed d) (committed d) false (nowFunc d)
                       (nowCalls d)).

Local Open Scope m_scope.

(** Modelled from the spec: [CreateUser], missing with the package.  A
    non-zero id and an email that another user holds are rejected with
    [ErrConstraintViolated]; on success the id and both timestamps are
    assigned into the record (section 4.3, [Test_Tx_CreateUser]).  A
    rejection leaves the transaction committable: the failing cases of
    [Test_Tx_CreateUser] run under the helper [inTx], which requires the
    final [Commit] to succeed. *)
Definition CreateUser (tx : Tx) (u : User.t) : M DB (User.t * option error) :=
  fun d =>
    if negb (User.ID u =? 0) then ((u, Some errorz.ErrConstraintViolated), d)
    else if existsb (fun x => String.eqb (User.Email x) (User.Email u))
                    (users (work d))
    then ((u, Some errorz.ErrConstraintViolated), d)
    else
      let (t, d1) := now d in
      let u' := User.mk (nextID (map User.ID (users (work d))))
                        (User.Email u) (User.PasswordHash u)
                        (User.IsActive u) t t in
      ((u', None),
       setWork d1 (mkTables (users (work d) ++ [u']) (emailTokens (work d)))).

(** The row [old] after an update with the record [u] at time [t]: the
    fields that can be modified come from [u], [updatedAt] is bumped, id
    and [createdAt] stay. *)
Definition updatedUser (old u : User.t) (t : Time) : User.t :=
  User.mk (User.ID old) (User.Email u) (User.PasswordHash u)
          (User.IsActive u) (User.CreatedAt old) t.

(** Modelled from the spec: [UpdateUser], missing with the package.
    [ErrNotFound] when no user has the id, [ErrConstraintViolated] when
    another user holds the new email; on success [updatedAt] is bumped in
    the row and in the record, [createdAt] is left alone (section 4.3,
    [Test_Tx_UpdateUser]). *)
Definition UpdateUser (tx : Tx) (u : User.t) : M DB (User.t * option error) :=
  fun d =>
    match findUser (User.ID u) (users (work d)) with
    | None => ((u, Some errorz.ErrNotFound), d)
    | Some _ =>
        if existsb (fun x => negb (User.ID x =? User.ID u)
                             && String.eqb (User.Email x) (User.Email u))
                   (users (work d))
        then ((u, Some errorz.ErrConstraintViolated), d)
        else
          let (t, d1) := now d in
          let u' := User.mk (User.ID u) (User.Email u) (User.PasswordHash u)
                            (User.IsActive u) (User.CreatedAt u) t in
          ((u', None),
           setWork d1
             (mkTables
                (map (fun x => if User.ID x =? User.ID u
                               then updatedUser x u t else x)
                     (users (work d)))
                (emailTokens (work d))))
    end.

(** Modelled from the spec: [FindUserByEmail], missing with the package.
    Exact match on the email, [ErrNotFound] when absent (section 4.3). *)
Definition FindUserByEmail (tx : Tx) (v : email.Address) : M DB (Result User.t) :=
  fun d =>
    match find (fun x => String.eqb (User.Email x) v) (users (work d)) with
    | Some u => (Ok u, d)
    | None => (Err errorz.ErrNotFound, d)
    end.

Definition memZ (x : Z) (l : list Z) : bool := existsb (Z.eqb x) l.
Definition memS (x : string) (l : list string) : bool := existsb (String.eqb x) l.

(** A slice of length zero, nil or not. *)
Definition isEmpty {A : Type} (s : option (list A)) : bool :=
  match s with
  | None | Some [] => true
  | Some (_ :: _) => false
  end.

Definition elems {A : Type} (s : option (list A)) : list A :=
  match s with
  | None => []
  | Some l => l
  end.

(** The condition a filter puts on one user: the conjunction of its
    dimensions, a dimension of length zero putting none (section 3, and
    the case "ok, all users, empty slices" of [Test_Tx_FindUser]). *)
Definition matches (f : UserFilter.t) (u : User.t) : bool :=
  (isEmpty (UserFilter.IDs f) || memZ (User.ID u) (elems (UserFilter.IDs f)))
  && (isEmpty (UserFilter.Emails f)
      || memS (User.Email u) (elems (UserFilter.Emails f)))
  && match UserFilter.IsActive f with
     | None => true
     | Some b => Bool.eqb (User.IsActive u) b
     end.

(** The same condition as a proposition: a dimension binds only when it
has at least one element. *)
Definition satisfies (f : UserFilter.t) (u : User.t) : Prop :=
  (forall ids, UserFilter.IDs f = Some ids -> ids <> [] -> In (User.ID u) ids)
  /\ (forall ems, UserFilter.Emails f = Some ems -> ems <> [] ->
      In (User.Email u) ems)
  /\ (forall b, UserFilter.IsActive f = Some b -> User.IsActive u = b).

(** Modelled from the spec: [FindUsers], missing with the package.  The
    users that satisfy every dimension of the filter, in creation order;
    none matching is an empty slice and no error (section 4.3,
    [Test_Tx_FindUser]). *)
Definition FindUsers (tx : Tx) (f : UserFilter.t) : M DB (Result (list User.t)) :=
  fun d => (Ok (filter (matches f) (users (work d))), d).

(** Modelled from the spec: [CreateEmailToken], missing with the
    package.  A non-zero id and a [userId] that no user has are rejected
    with [ErrConstraintViolated]; on success the id and [createdAt] are
    assigned into the record (section 4.3, [Test_Tx_CreateEmailToken]). *)
Definition CreateEmailToken (tx : Tx) (t : EmailToken.t)
  : M DB (EmailToken.t * option error) :=
  fun d =>
    if negb (EmailToken.ID t =? 0)
    then ((t, Some errorz.ErrConstraintViolated), d)
    else match findUser (EmailToken.UserID t) (users (work d)) with
         | None => ((t, Some errorz.ErrConstraintViolated), d)
         | Some _ =>
             let (ts, d1) := now d in
             let t' := EmailToken.mk
                         (nextID (map EmailToken.ID (emailTokens (work d))))
                         (EmailToken.TokenHash t) (EmailToken.UserID t)
                         (EmailToken.Email t) (EmailToken.Purpose t)
                         ts (EmailToken.ConsumedAt t) in
             ((t', None),
              setWork d1 (mkTables (users (work d))
                                   (emailTokens (work d) ++ [t'])))
         end.

(** The update leaves the immutable fields of the row as they are. *)
Definition sameImmutable (old t : EmailToken.t) : bool :=
  String.eqb (EmailToken.TokenHash old) (EmailToken.TokenHash t)
  && (EmailToken.UserID old =? EmailToken.UserID t)
  && String.eqb (EmailToken.Email old) (EmailToken.Email t)
  && String.eqb (EmailToken.Purpose old) (EmailToken.Purpose t).

Definition consumedToken (old t : EmailToken.t) : EmailToken.t :=
  EmailToken.mk (EmailToken.ID old) (EmailToken.TokenHash old)
                (EmailToken.UserID old) (EmailToken.Email old)
                (EmailToken.Purpose old) (EmailToken.CreatedAt old)
                (EmailToken.ConsumedAt t).

(** Two token rows agree on everything but [consumedAt]. *)
Definition sameFields (a b : EmailToken.t) : Prop :=
  EmailToken.ID a = EmailToken.ID b
  /\ EmailToken.TokenHash a = EmailToken.TokenHash b
  /\ EmailToken.UserID a = EmailToken.UserID b
  /\ EmailToken.Email a = EmailToken.Email b
  /\ EmailToken.Purpose a = EmailToken.Purpose b
  /\ EmailToken.CreatedAt a = EmailToken.CreatedAt b.

(** Modelled from the spec: [UpdateEmailToken], missing with the
    package.  [ErrNotFound] when no token has the id;
    [ErrConstraintViolated] when [tokenHash], [userId], [email] or
    [purpose] differs from the row, and then the transaction is in the
    failed state (the cases "fail, immutable field ..." of
    [Test_Tx_UpdateEmailToken] run under [inTxBadState]); otherwise
    [consumedAt] is stored (section 4.3). *)
Definition UpdateEmailToken (tx : Tx) (t : EmailToken.t)
  : M DB (EmailToken.t * option error) :=
  fun d =>
    match findToken (EmailToken.ID t) (emailTokens (work d)) with
    | None => ((t, Some errorz.ErrNotFound), d)
    | Some old =>
        if negb (sameImmutable old t) then
          ((t, Some errorz.ErrConstraintViolated),
           mkDB (committed d) (work d) true (nowFunc d) (nowCalls d))
        else
          ((t, None),
           setWork d
             (mkTables (users (work d))
                (map (fun x => if EmailToken.ID x =? EmailToken.ID t
                               then consumedToken x t else x)
                     (emailTokens (work d)))))
    end.

(** Modelled from the spec: [FindEmailTokenByID], missing with the
    package.  [ErrNotFound] when absent (section 4.3). *)
Definition FindEmailTokenByID (tx : Tx) (id : Z) : M DB (Result EmailToken.t) :=
  fun d =>
    match findToken id (emailTokens (work d)) with
    | Some t => (Ok t, d)
    | None => (Err errorz.ErrNotFound, d)
    end.

(** [db.New(testDB, nowFunc)] on an empty database. *)
Definition New (nowFunc : nat -> Time) : DB :=
  mkDB (mkTables [] []) (mkTables [] []) false nowFunc 0.

(** *** Programs over a transaction *)

(** One operation of [Tx] with its arguments. *)
Inductive Op : Type :=
| OpCreateUser (u : User.t)
| OpUpdateUser (u : User.t)
| OpFindUserByEmail (v : email.Address)
| OpFindUsers (f : UserFilter.t)
| OpCreateEmailToken (t : EmailToken.t)
| OpUpdateEmailToken (t : EmailToken.t)
| OpFindEmailTokenByID (id : Z).

Definition errOf {A : Type} (r : Result A) : option error :=
  match r with
  | Ok _ => None
  | Err e => Some e
  end.

(** Run one operation and keep its error. *)
Definition exec (tx : Tx) (op : Op) : M DB (option error) :=
  match op with
  | OpCreateUser u => r <- CreateUser tx u ;; ret (snd r)
  | OpUpdateUser u => r <- UpdateUser tx u ;; ret (snd r)
  | OpFindUserByEmail v => r <- FindUserByEmail tx v ;; ret (errOf r)
  | OpFindUsers f => r <- FindUsers tx f ;; ret (errOf r)
  | OpCreateEmailToken t => r <- CreateEmailToken tx t ;; ret (snd r)
  | OpUpdateEmailToken t => r <- UpdateEmailToken tx t ;; ret (snd r)
  | OpFindEmailTokenByID id => r <- FindEmailTokenByID tx id ;; ret (errOf r)
  end.

(** [op] was an [UpdateEmailToken] that came back with
[ErrConstraintViolated]. *)
Definition rejectedUpdate (x : Op * option error) : bool :=
  match x with
  | (OpUpdateEmailToken _, Some e) => errors.Is e errorz.ErrConstraintViolated
  | _ => false
  end.

(** Run the operations in order, whatever they return. *)
Fixpoint run (tx : Tx) (ops : list Op) : M DB (list (option error)) :=
  match ops with
  | [] => ret []
  | op :: rest =>
      e <- exec tx op ;;
      es <- run tx rest ;;
      ret (e :: es)
  end.

(** *** What the rows of a store always satisfy *)

(** Ids as the store assigns them: positive, and growing with the order
    of creation. *)
Definition increasing (ids : list Z) : Prop :=
  StronglySorted Z.lt ids /\ Forall (fun i => 0 < i) ids.

(** The data invariants of section 3: ids assigned in creation order, no
    email held twice, every token owned by a user of the table. *)
Definition wellFormed (t : Tables) : Prop :=
  increasing (map User.ID (users t))
  /\ increasing (map EmailToken.ID (emailTokens t))
  /\ NoDup (map User.Email (users t))
  /\ (forall tok, In tok (emailTokens t) ->
      exists u, In u (users t) /\ User.ID u = EmailToken.UserID tok).

(** What a client does with the store: open a transaction, run an
    operation in it, commit it or roll it back. *)
Inductive Cmd : Type :=
| CmdBegin
| CmdOp (op : Op)
| CmdCommit
| CmdRollback.

Definition step (c : Cmd) (d : DB) : DB :=
  match c with
  | CmdBegin => snd (BeginTx tt d)
  | CmdOp op => snd (exec tt op d)
  | CmdCommit => snd (Commit tt d)
  | CmdRollback => snd (Rollback tt d)
  end.

(** The commands in order. *)
Definition steps (cs : list Cmd) (d : DB) : DB :=
  fold_left (fun d c => step c d) cs d.

End db.

(* ------------------------------------------------------------------ *)
(** ** A closed system to run the service in *)

Module sim.
Import auth.

(** A mail handed to the transport. *)
Record Mail : Type := mkMail {
  template : string;
  recipient : email.Address;
  data : ActivationData
}.

(** The store together with stand-ins for the other collaborators:
    [entropy] is what the random source will yield, [mailDown] makes the
    transport refuse, [outbox] and [handled] collect what was sent and
    what the error handler was given. *)
Record World : Type := mkWorld {
  database : db.DB;
  entropy : list Token;
  mailDown : bool;
  outbox : list Mail;
  handled : list error
}.

Definition onDB {A : Type} (op : M db.DB A) : M World A :=
  fun w =>
    let (a, d) := op (database w) in
    (a, mkWorld d (entropy w) (mailDown w) (outbox w) (handled w)).

#[global] Instance store : Store World unit db.Tx := {
  BeginTx ctx := onDB (db.BeginTx ctx);
  Commit tx := onDB (db.Commit tx);
  Rollback tx := onDB (db.Rollback tx);
  CreateUser tx u := onDB (db.CreateUser tx u);
  UpdateUser tx u := onDB (db.UpdateUser tx u);
  FindUserByEmail tx v := onDB (db.FindUserByEmail tx v);
  CreateEmailToken tx t := onDB (db.CreateEmailToken tx t);
  UpdateEmailToken tx t := onDB (db.UpdateEmailToken tx t);
  FindEmailTokenByID tx id := onDB (db.FindEmailTokenByID tx id)
}.

Definition hashOf (secret : string) : Argon2Hash :=
  String.append "$argon2id$" secret.

#[global] Instance deps : Deps World unit := {
  Password_Hash p :=
    fun w => if String.eqb p "" then (Err (errors.New "empty password"), w)
             else (Ok (hashOf p), w);
  GenerateToken :=
    fun w => match entropy w with
             | [] => (Err (errors.New "entropy exhausted"), w)
             | tok :: rest =>
                 (Ok tok, mkWorld (database w) rest (mailDown w) (outbox w)
                                  (handled w))
             end;
  Token_Hash tok := fun w => (Ok (hashOf tok), w);
  Send ctx name to d :=
    fun w => if mailDown w then (Some (errors.New "transport down"), w)
             else (None, mkWorld (database w) (entropy w) (mailDown w)
                                 (outbox w ++ [mkMail name to d])
                                 (handled w));
  errHandler e :=
    fun w => (tt, mkWorld (database w) (entropy w) (mailDown w) (outbox w)
                          (handled w ++ [e]));
  WithTimeout ctx d := ctx
}.

(** The clock of the store tests: [now(t, i)] is [i] seconds after
    2021-01-01T00:00:00Z. *)
Definition testNow (i : nat) : Time := Z.of_nat i + 1609459200.

Definition world0 (tokens : list Token) (down : bool) : World :=
  mkWorld (db.New testNow) tokens down [] [].

Definition state0 (w : World) : State World unit db.Tx := mkState w [] 0 [].

(** A world in which [u] has been created and committed. *)
Definition registered (u : User.t) (tokens : list Token) (down : bool)
  : World :=
  mkWorld (snd (db.Commit tt
                  (snd (db.CreateUser tt u
                          (snd (db.BeginTx tt (db.New testNow)))))))
          tokens down [] [].

(** [newUser(t, nil)] and [newEmailToken(t, nil)] of the store tests. *)
Definition hashA : Argon2Hash :=
  "$argon2id$v=19$m=47104,t=1,p=1$vP9U4C5jsOzFQLj0gvUkYw$YLrSb2dGfcVohlm8syynqHs6/NHxXS9rt/t6TjL7pi0".
Definition hashB : Argon2Hash :=
  "$argon2id$v=19$m=47104,t=1,p=1$CkX5zzYLJMWm0y/17eScyw$Qfah+NewdsdeF0+iV72mShZhRO93Qwzdj17TUZCH6ZU".

Definition newUser : User.t := User.mk 0 "alice@example.com" hashA false 0 0.
Definition newEmailToken : EmailToken.t :=
  EmailToken.mk 0 hashB 1 "alice@example.com" TokenPurposeActivate 0 None.

(** The token record as [startActivation] has it before the
    transaction. *)
Definition pendingToken : EmailToken.t :=
  EmailToken.mk 0 hashB 0 "alice@example.com" TokenPurposeActivate 0 None.

Definition jacob : User.t := User.mk 0 "jacob@example.com" hashA true 0 0.
Definition eva : User.t := User.mk 0 "eva@example.com" hashA false 0 0.

(** The second user of [Test_Tx_UpdateUser] and
    [Test_Tx_UpdateEmailToken]. *)
Definition user2 : User.t := User.mk 0 "jacob@example.com" hashA false 0 0.

(** [storeForTest] followed by [BeginTx]. *)
Definition begun : db.DB := snd (db.BeginTx tt (db.New testNow)).

(** The store after [BeginTx] and the [setupUsers] of [Test_Tx_FindUser]. *)
Definition threeUsers : db.DB :=
  snd (db.run tt [db.OpCreateUser newUser; db.OpCreateUser jacob;
                  db.OpCreateUser eva] begun).

(** The store after [BeginTx] and the [setup] of
    [Test_Tx_UpdateEmailToken]. *)
Definition userAndToken : db.DB :=
  snd (db.run tt [db.OpCreateUser newUser; db.OpCreateEmailToken newEmailToken]
              begun).

(** The stored users of [setupUsers]. *)
Definition users3 : list User.t :=
  [User.mk 1 "alice@example.com" hashA false (testNow 0) (testNow 0);
   User.mk 2 "jacob@example.com" hashA true (testNow 1) (testNow 1);
   User.mk 3 "eva@example.com" hashA false (testNow 2) (testNow 2)].

Definition found (f : UserFilter.t) : Result (list User.t) :=
  fst (db.FindUsers tt f threeUsers).

(** A test body run under the helper [inTx] or [inTxBadState]: the
    results of its operations and of the final [Commit]. *)
Definition inTest (ops : list db.Op) : list (option error) * option error :=
  let (results, d) := db.run tt ops begun in
  (results, fst (db.Commit tt d)).

(** The body of the cases "fail, immutable field ...": the setup, a second
    user, and the update with the changed token. *)
Definition immutableCase (changed : EmailToken.t) : list db.Op :=
  [db.OpCreateUser newUser; db.OpCreateEmailToken newEmailToken;
   db.OpCreateUser user2; db.OpUpdateEmailToken changed].

(** Alice registers twice; the scheduler then runs the second goroutine
    and after it the first. *)
Definition registerTwice : State World unit db.Tx :=
  let c := Credentials.mk "alice@example.com" "correct horse" in
  let s1 := snd (RegisterAccount tt c (state0 (world0 ["t1"; "t2"] false))) in
  let s2 := snd (RegisterAccount tt c s1) in
  let s3 := snd (schedule 30 1 s2) in
  snd (schedule 30 0 s3).

(** A stand-in for [krypto.ParseKey]: any non-empty text is a key. *)
Definition parseKey (v : string) : Result string :=
  if String.eqb v "" then Err (errors.New "empty key") else Ok v.

(** Alice registers twice; the scheduler then runs the second goroutine
    and after it the first. *)
Definition twice : list (Action unit) :=
  [DoRegister tt (Credentials.mk "alice@example.com" "correct horse");
   DoRegister tt (Credentials.mk "alice@example.com" "correct horse");
   DoSchedule 1; DoSchedule 0].

(** The [setupUsers] of [Test_Tx_FindUser] as commands. *)
Definition threeCmds : list db.Cmd :=
  [db.CmdBegin; db.CmdOp (db.OpCreateUser newUser);
   db.CmdOp (db.OpCreateUser jacob); db.CmdOp (db.OpCreateUser eva)].

(** The [setup] of [Test_Tx_UpdateEmailToken] as commands. *)
Definition tokenCmds : list db.Cmd :=
  [db.CmdBegin; db.CmdOp (db.OpCreateUser newUser);
   db.CmdOp (db.OpCreateEmailToken newEmailToken)].

End sim.

(** [sub] is [l] with some elements left out, the others in their order. *)
Inductive Subseq {A : Type} : list A -> list A -> Prop :=
| Subseq_nil : Subseq [] []
| Subseq_skip : forall x sub l, Subseq sub l -> Subseq sub (x :: l)
| Subseq_keep : forall x sub l, Subseq sub l -> Subseq (x :: sub) (x :: l).

(* ------------------------------------------------------------------ *)
(** ** The service on the store *)

Module onStore.
Import auth.

Section OnStore.
Variables E Ctx : Type.
(** The primitives, the mail transport and the error handler, in a world
    [E] of their own. *)
Variable prims : Deps E Ctx.

(** The store of package [db] beside that world. *)
Definition World : Type := (db.DB * E)%type.

Definition onDB {A : Type} (op : M db.DB A) : M World A :=
  fun w => let (a, d) := op (fst w) in (a, (d, snd w)).

Definition onEnv {A : Type} (op : M E A) : M World A :=
  fun w => let (a, e) := op (snd w) in (a, (fst w, e)).

(** [db.Store] as the [auth.Store] of the service. *)
Definition store : Store World Ctx db.Tx :=
  Build_Store
    (fun _ => onDB (db.BeginTx tt))
    (fun tx => onDB (db.Commit tx))
    (fun tx => onDB (db.Rollback tx))
    (fun tx u => onDB (db.CreateUser tx u))
    (fun tx u => onDB (db.UpdateUser tx u))
    (fun tx v => onDB (db.FindUserByEmail tx v))
    (fun tx t => onDB (db.CreateEmailToken tx t))
    (fun tx t => onDB (db.UpdateEmailToken tx t))
    (fun tx id => onDB (db.FindEmailTokenByID tx id)).

Definition deps : Deps World Ctx :=
  Build_Deps
    (fun p => onEnv (@Password_Hash E Ctx prims p))
    (onEnv (@GenerateToken E Ctx prims))
    (fun tok => onEnv (@Token_Hash E Ctx prims tok))
    (fun ctx name to d => onEnv (@Send E Ctx prims ctx name to d))
    (fun e => onEnv (@errHandler E Ctx prims e))
    (@WithTimeout E Ctx prims).

End OnStore.

End onStore.

(* ------------------------------------------------------------------ *)
(** ** Package [main], continued: the config and its loader *)

Module cmd.

(** The number of commas in [v]. *)
Fixpoint commas (v : string) : nat :=
  match v with
  | EmptyString => 0%nat
  | String c rest =>
      if Ascii.eqb c main.comma then S (commas rest) else commas rest
  end.

(** What the loader takes from packages that are not among the sources:
    [krypto.Key] with its zero value and [krypto.ParseKey]; [url.URL] with
    the two fields that are read, [url.Parse] and the URL that it returns
    for "http://localhost:8888"; [time.ParseDuration], in nanoseconds;
    [strconv.ParseBool]; [email.ParseAddress]. *)
Class Library (Key URL : Type) : Type := {
  zeroKey : Key;
  ParseKey : string -> Result Key;
  Scheme : URL -> string;
  Host : URL -> string;
  url_Parse : string -> Result URL;
  localhost8888 : URL;
  ParseDuration : string -> Result Z;
  ParseBool : string -> Result bool;
  ParseAddress : string -> Result string
}.

(** [time.Second] and [time.Minute]. *)
Definition Second : Z := 1000000000.
Definition Minute : Z := 60 * Second.

(** [web.ServerConfig]. *)
Record ServerConfig (Key : Type) : Type := mkServerConfig {
  CSRFKey : Key;
  SecureCookie : bool
}.

Record httpConfig (Key : Type) : Type := mkHttpConfig {
  addr : string;
  readTimeout : Z;
  writeTimeout : Z;
  idleTimeout : Z;
  shutdownTimeout : Z;
  cookieKeys : list Key;
  secureCookie : bool;
  server : ServerConfig Key
}.

Record dbConfig (Key : Type) : Type := mkDbConfig {
  file : string;
  migrate : bool;
  encryptionKeys : list Key;
  blindIndexSalt : Key
}.

(** [auth.ServiceConfig] and [email.ServiceConfig], by the fields that the
    loader uses. *)
Record authConfig : Type := mkAuthConfig {
  WorkerTimeout : Z;
  TokenExpiry : Z
}.

Record emailConfig (URL : Type) : Type := mkEmailConfig {
  BaseURL : URL;
  From : string
}.

Record config (Key URL : Type) : Type := mkConfig {
  http : httpConfig Key;
  db : dbConfig Key;
  auth : authConfig;
  email : emailConfig URL
}.

Section Config.
Context {Key URL : Type} {lib : Library Key URL}.

(** [defaultConfig]; the fields it leaves out have their zero values. *)
Definition defaultConfig : config Key URL :=
  mkConfig
    (mkHttpConfig ":8888" (Second * 5) (Second * 10) (Second * 120)
                  (Second * 15) [] true (mkServerConfig zeroKey false))
    (mkDbConfig "househunt.db" true [] zeroKey)
    (mkAuthConfig (Second * 30) (Minute * 30))
    (mkEmailConfig localhost8888 "").

(** *** The setters *)

(** [confURL]: the URL behind [tgt] after the call, and the error. *)
Definition confURL (v : string) (tgt : URL) : URL * option error :=
  match url_Parse v with
  | Err err => (tgt, Some err)
  | Ok u =>
      if String.eqb (Scheme u) "" || String.eqb (Host u) "" then
        (tgt, Some (errors.Errorf
                      (String.append "URL "
                         (String.append v " is missing scheme or host")) []))
      else (u, None)
  end.

Definition confDuration (v : string) (tgt : Z) (min max : Z)
  : Z * option error :=
  match ParseDuration v with
  | Err err => (tgt, Some err)
  | Ok dur =>
      if (dur <? min) || (dur >? max) then
        (tgt, Some (errors.Errorf
                      "duration %s not in range [%s, %s] (inclusive)"
                      [dur; min; max]))
      else (dur, None)
  end.

Definition confString (v : string) (tgt : string) (minLen maxLen : Z)
  : string * option error :=
  if (main.len v <? minLen) || (main.len v >? maxLen) then
    (tgt, Some (errors.Errorf
                  "string length %d not in range [%d, %d] (inclusive)"
                  [main.len v; minLen; maxLen]))
  else (v, None).

Definition confBool (v : string) (tgt : bool) : bool * option error :=
  match ParseBool v with
  | Err err => (tgt, Some err)
  | Ok b => (b, None)
  end.

Definition confCryptoKey (v : string) (tgt : Key) : Key * option error :=
  match ParseKey v with
  | Err err => (tgt, Some err)
  | Ok k => (k, None)
  end.

Definition confEmailAddress (v : string) (tgt : string)
  : string * option error :=
  match ParseAddress v with
  | Err err => (tgt, Some err)
  | Ok a => (a, None)
  end.

(** *** Assignments to the fields of a [config] *)

Definition set_http (c : config Key URL) (h : httpConfig Key) : config Key URL :=
  mkConfig h (db c) (auth c) (email c).
Definition set_db (c : config Key URL) (d : dbConfig Key) : config Key URL :=
  mkConfig (http c) d (auth c) (email c).
Definition set_auth (c : config Key URL) (a : authConfig) : config Key URL :=
  mkConfig (http c) (db c) a (email c).
Definition set_email (c : config Key URL) (e : emailConfig URL) : config Key URL :=
  mkConfig (http c) (db c) (auth c) e.

Definition set_addr (c : config Key URL) (x : string) : config Key URL :=
  let h := http c in
  set_http c (mkHttpConfig x (readTimeout h) (writeTimeout h) (idleTimeout h)
                           (shutdownTimeout h) (cookieKeys h) (secureCookie h)
                           (server h)).
Definition set_readTimeout (c : config Key URL) (x : Z) : config Key URL :=
  let h := http c in
  set_http c (mkHttpConfig (addr h) x (writeTimeout h) (idleTimeout h)
                           (shutdownTimeout h) (cookieKeys h) (secureCookie h)
                           (server h)).
Definition set_writeTimeout (c : config Key URL) (x : Z) : config Key URL :=
  let h := http c in
  set_http c (mkHttpConfig (addr h) (readTimeout h) x (idleTimeout h)
                           (shutdownTimeout h) (cookieKeys h) (secureCookie h)
                           (server h)).
Definition set_idleTimeout (c : config Key URL) (x : Z) : config Key URL :=
  let h := http c in
  set_http c (mkHttpConfig (addr h) (readTimeout h) (writeTimeout h) x
                           (shutdownTimeout h) (cookieKeys h) (secureCookie h)
                           (server h)).
Definition set_shutdownTimeout (c : config Key URL) (x : Z) : config Key URL :=
  let h := http c in
  set_http c (mkHttpConfig (addr h) (readTimeout h) (writeTimeout h)
                           (idleTimeout h) x (cookieKeys h) (secureCookie h)
                           (server h)).
Definition set_cookieKeys (c : config Key URL) (x : list Key) : config Key URL :=
  let h := http c in
  set_http c (mkHttpConfig (addr h) (readTimeout h) (writeTimeout h)
                           (idleTimeout h) (shutdownTimeout h) x
                           (secureCookie h) (server h)).
Definition set_secureCookie (c : config Key URL) (x : bool) : config Key URL :=
  let h := http c in
  set_http c (mkHttpConfig (addr h) (readTimeout h) (writeTimeout h)
                           (idleTimeout h) (shutdownTimeout h) (cookieKeys h)
                           x (server h)).
Definition set_CSRFKey (c : config Key URL) (x : Key) : config Key URL :=
  let h := http c in
  set_http c (mkHttpConfig (addr h) (readTimeout h) (writeTimeout h)
                           (idleTimeout h) (shutdownTimeout h) (cookieKeys h)
                           (secureCookie h)
                           (mkServerConfig x (SecureCookie (server h)))).
Definition set_file (c : config Key URL) (x : string) : config Key URL :=
  let d := db c in
  set_db c (mkDbConfig x (migrate d) (encryptionKeys d) (blindIndexSalt d)).
Definition set_migrate (c : config Key URL) (x : bool) : config Key URL :=
  let d := db c in
  set_db c (mkDbConfig (file d) x (encryptionKeys d) (blindIndexSalt d)).
Definition set_encryptionKeys (c : config Key URL) (x : list Key) : config Key URL :=
  let d := db c in
  set_db c (mkDbConfig (file d) (migrate d) x (blindIndexSalt d)).
Definition set_blindIndexSalt (c : config Key URL) (x : Key) : config Key URL :=
  let d := db c in
  set_db c (mkDbConfig (file d) (migrate d) (encryptionKeys d) x).
Definition set_WorkerTimeout (c : config Key URL) (x : Z) : config Key URL :=
  set_auth c (mkAuthConfig x (TokenExpiry (auth c))).
Definition set_TokenExpiry (c : config Key URL) (x : Z) : config Key URL :=
  set_auth c (mkAuthConfig (WorkerTimeout (auth c)) x).
Definition set_BaseURL (c : config Key URL) (x : URL) : config Key URL :=
  set_email c (mkEmailConfig x (From (email c))).
Definition set_From (c : config Key URL) (x : string) : config Key URL :=
  set_email c (mkEmailConfig (BaseURL (email c)) x).

(** *** [envMap] *)

(** [envVariable]; [mapFunc] works on the [config] behind its pointer and
    gives it back with the error. *)
Record envVariable : Type := mkEnvVariable {
  required : bool;
  mapFunc : string -> config Key URL -> config Key URL * option error
}.

(** A [mapFunc] that hands the address of one field to a setter. *)
Definition into {X : Type} (set : config Key URL -> X -> config Key URL)
    (r : X * option error) (c : config Key URL)
  : config Key URL * option error :=
  (set c (fst r), snd r).

(** [envMap], in the order of the source; as a Go map it has no order. *)
Definition envMap : list (string * envVariable) :=
  [("BASE_URL",
    mkEnvVariable false
      (fun v c => into set_BaseURL (confURL v (BaseURL (email c))) c));
   ("HTTP_ADDR", mkEnvVariable false (fun v c => (set_addr c v, None)));
   ("HTTP_READ_TIMEOUT",
    mkEnvVariable false
      (fun v c => into set_readTimeout
                       (confDuration v (readTimeout (http c)) 0 main.MaxInt64)
                       c));
   ("HTTP_WRITE_TIMEOUT",
    mkEnvVariable false
      (fun v c => into set_writeTimeout
                       (confDuration v (writeTimeout (http c)) 0 main.MaxInt64)
                       c));
   ("HTTP_IDLE_TIMEOUT",
    mkEnvVariable false
      (fun v c => into set_idleTimeout
                       (confDuration v (idleTimeout (http c)) 0 main.MaxInt64)
                       c));
   ("HTTP_SHUTDOWN_TIMEOUT",
    mkEnvVariable false
      (fun v c => into set_shutdownTimeout
                       (confDuration v (shutdownTimeout (http c)) 0
                                     main.MaxInt64) c));
   ("HTTP_COOKIE_KEYS",
    mkEnvVariable true
      (fun v c => into set_cookieKeys
                       (main.confSliceOf ParseKey v (cookieKeys (http c)) 2
                                         main.MaxInt64) c));
   ("HTTP_SECURE_COOKIE",
    mkEnvVariable false
      (fun v c => into set_secureCookie
                       (confBool v (secureCookie (http c))) c));
   ("HTTP_CSRF_KEY",
    mkEnvVariable true
      (fun v c => into set_CSRFKey
                       (confCryptoKey v (CSRFKey (server (http c)))) c));
   ("DB_FILENAME",
    mkEnvVariable false
      (fun v c => into set_file (confString v (file (db c)) 1 main.MaxInt64) c));
   ("DB_MIGRATE",
    mkEnvVariable false
      (fun v c => into set_migrate (confBool v (migrate (db c))) c));
   ("DB_BLIND_INDEX_SALT",
    mkEnvVariable true
      (fun v c => into set_blindIndexSalt
                       (confCryptoKey v (blindIndexSalt (db c))) c));
   ("DB_ENCRYPTION_KEYS",
    mkEnvVariable true
      (fun v c => into set_encryptionKeys
                       (main.confSliceOf ParseKey v (encryptionKeys (db c)) 2
                                         main.MaxInt64) c));
   ("AUTH_WORKER_TIMEOUT",
    mkEnvVariable false
      (fun v c => into set_WorkerTimeout
                       (confDuration v (WorkerTimeout (auth c)) 0
                                     main.MaxInt64) c));
   ("AUTH_TOKEN_EXPIRY",
    mkEnvVariable false
      (fun v c => into set_TokenExpiry
                       (confDuration v (TokenExpiry (auth c)) 0 main.MaxInt64)
                       c));
   ("EMAIL_FROM",
    mkEnvVariable true
      (fun v c => into set_From (confEmailAddress v (From (email c))) c))].

(** *** [configFromEnv] *)

(** The environment: [os.LookupEnv]. *)
Definition Env : Type := string -> option string.

(** The [for key, envVar := range envMap] loop over the entries that are
    left, in the order in which the map yields them.  [errors.Join] of nil
    and one error is taken as that error: it has the same text and the same
    [errors.Is]. *)
Fixpoint configFromEnv_range (env : Env) (entries : list (string * envVariable))
    (c : config Key URL) (errSum : option error)
  : config Key URL * option error :=
  match entries with
  | [] => (c, errSum)
  | (key, envVar) :: rest =>
      match env key with
      | None =>
          if required envVar then
            configFromEnv_range env rest c
              (errors.Join errSum
                 (Some (errors.Errorf
                          (String.append "missing required env variable " key)
                          [])))
          else configFromEnv_range env rest c errSum
      | Some val =>
          match mapFunc envVar val c with
          | (c', Some err) =>
              configFromEnv_range env rest c'
                (errors.Join errSum
                   (Some (errors.Wrapf
                            (String.append "invalid env variable "
                               (String.append key ": %w")) [] err)))
          | (c', None) => configFromEnv_range env rest c' errSum
          end
      end
  end.

(** [configFromEnv], for the order [order] in which the map is ranged
    over: a permutation of [envMap]. *)
Definition configFromEnv (order : list (string * envVariable)) (env : Env)
  : config Key URL * option error :=
  configFromEnv_range env order defaultConfig None.

(** *** What the loader reports *)

(** The errors joined into an error, left to right. *)
Fixpoint joined (e : error) : list error :=
  match e with
  | errors.Joined a b => (joined a ++ joined b)%list
  | _ => [e]
  end.

Definition problems (e : option error) : list error :=
  match e with
  | None => []
  | Some e => joined e
  end.

(** What is wrong with one variable in the environment [env]. *)
Definition problemOf (env : Env) (entry : string * envVariable) : list error :=
  let (key, envVar) := entry in
  match env key with
  | None =>
      if required envVar then
        [errors.Errorf (String.append "missing required env variable " key) []]
      else []
  | Some val =>
      match snd (mapFunc envVar val defaultConfig) with
      | Some err =>
          [errors.Wrapf (String.append "invalid env variable "
                           (String.append key ": %w")) [] err]
      | None => []
      end
  end.

(** The config after the variable of one entry has been looked at. *)
Definition stepConfig (env : Env) (e : string * envVariable)
    (c : config Key URL) : config Key URL :=
  match env (fst e) with
  | None => c
  | Some v => fst (mapFunc (snd e) v c)
  end.

(** The environment without the variable [key]. *)
Definition unset (key : string) (env : Env) : Env :=
  fun k => if String.eqb k key then None else env k.

(** The variables that are parsed into a slice. *)
Definition sliceVariable (key : string) : bool :=
  String.eqb key "HTTP_COOKIE_KEYS" || String.eqb key "DB_ENCRYPTION_KEYS".

End Config.

Arguments envVariable : clear implicits.

End cmd.

(* ------------------------------------------------------------------ *)
(** ** An environment to run the loader in *)

Module simenv.

(** A stand-in for [url.Parse]: the text before "://" is the scheme, the
    rest the host; without "://" there is no scheme. *)
Definition parseURL (v : string) : Result (string * string) :=
  match String.index 0 "://" v with
  | Some n => Ok (String.substring 0 n v,
                  String.substring (n + 3) (String.length v - (n + 3)) v)
  | None => Ok ("", v)
  end.

(** A stand-in for [time.ParseDuration] that knows three texts. *)
Definition parseDuration (v : string) : Result Z :=
  if String.eqb v "5s" then Ok (cmd.Second * 5)
  else if String.eqb v "1m" then Ok cmd.Minute
  else if String.eqb v "-1s" then Ok (- cmd.Second)
  else Err (errors.New "time: invalid duration").

(** [strconv.ParseBool]. *)
Definition parseBool (v : string) : Result bool :=
  if existsb (String.eqb v) ["1"; "t"; "T"; "TRUE"; "true"; "True"] then Ok true
  else if existsb (String.eqb v) ["0"; "f"; "F"; "FALSE"; "false"; "False"]
  then Ok false
  else Err (errors.New "invalid syntax").

(** A stand-in for [email.ParseAddress]: an address has an "@". *)
Definition parseAddress (v : string) : Result string :=
  match String.index 0 "@" v with
  | Some _ => Ok v
  | None => Err (errors.New "invalid email address")
  end.

#[global] Instance library : cmd.Library string (string * string) := {
  cmd.zeroKey := "";
  cmd.ParseKey := sim.parseKey;
  cmd.Scheme := fst;
  cmd.Host := snd;
  cmd.url_Parse := parseURL;
  cmd.localhost8888 := ("http", "localhost:8888");
  cmd.ParseDuration := parseDuration;
  cmd.ParseBool := parseBool;
  cmd.ParseAddress := parseAddress
}.

(** The environment that sets the variables of [vars]. *)
Definition environ (vars : list (string * string)) : cmd.Env :=
  fun key =>
    match find (fun kv => String.eqb (fst kv) key) vars with
    | Some kv => Some (snd kv)
    | None => None
    end.

(** The five required variables, set to values that parse. *)
Definition requiredVars : list (string * string) :=
  [("HTTP_COOKIE_KEYS", "c1,c2"); ("HTTP_CSRF_KEY", "k");
   ("DB_BLIND_INDEX_SALT", "s"); ("DB_ENCRYPTION_KEYS", "e1,e2");
   ("EMAIL_FROM", "noreply@example.com")].

End simenv.

(* ------------------------------------------------------------------ *)
(** ** Package [web]: the global middlewares of [NewServer] *)

Module web.

Section Middlewares.
Variable Handler : Type.

(** The loop
    [for i := len(middlewares) - 1; i >= 0; i-- {
       s.handler = middlewares[i](s.handler) }]
    with [n] for [i + 1]; an index out of range panics, which is [None]. *)
Fixpoint wrapFrom (middlewares : list (Handler -> Handler)) (n : nat)
  (handler : Handler) : option Handler :=
  match n with
  | O => Some handler
  | S i =>
      match nth_error middlewares i with
      | Some mw => wrapFrom middlewares i (mw handler)
      | None => None
      end
  end.

(** The handler [NewServer] leaves in [s.handler]: it starts from the mux
    and runs the loop from the last index. *)
Definition wrapped (middlewares : list (Handler -> Handler)) (mux : Handler)
  : option Handler :=
  wrapFrom middlewares (List.length middlewares) mux.

(** [NewServer]'s list: the CSRF protection, then the session. *)
Definition middlewares (csrfMW session : Handler -> Handler)
  : list (Handler -> Handler) :=
  [csrfMW; session].

End Middlewares.

End web.

(* ================================================================== *)
(** * Properties *)

Unset Implicit Arguments.
Import auth.

(** ** The configuration loader *)

Section ConfSliceOfFacts.
Variable T : Type.
Variable elemFunc : string -> Result T.

Lemma confSliceOf_range_parsed :
  forall elems ps i tgt,
    main.parsesTo elemFunc elems ps ->
    main.confSliceOf_range elemFunc i elems tgt = ((tgt ++ ps)%list, None).
Proof.
  induction elems as [|elem rest IH]; intros [|p ps] i tgt H; simpl in H;
    try contradiction.
  - simpl. now rewrite app_nil_r.
  - destruct H as [Hp Hrest]. simpl. rewrite Hp.
    rewrite (IH ps (i + 1) (tgt ++ [p])%list Hrest).
    now rewrite <- app_assoc.
Qed.

Lemma confSliceOf_parsed :
  forall v tgt ps minLen maxLen,
    main.parsesTo elemFunc (main.Split v main.comma) ps ->
    main.confSliceOf elemFunc v tgt minLen maxLen =
    if (main.len v <? minLen) || (main.len v >? maxLen)
    then ((tgt ++ ps)%list,
          Some (errors.Errorf
                  "slice length %d not in range [%d, %d] (inclusive)"
                  [main.len v; minLen; maxLen]))
    else ((tgt ++ ps)%list, None).
Proof.
  intros v tgt ps minLen maxLen H. unfold main.confSliceOf.
  now rewrite (confSliceOf_range_parsed _ ps 0 tgt H).
Qed.

End ConfSliceOfFacts.

Lemma Split_noComma :
  forall v, main.noComma v = true -> main.Split v main.comma = [v].
Proof.
  induction v as [|c rest IH]; intros H; simpl in *.
  - reflexivity.
  - apply andb_true_iff in H. destruct H as [Hc Hrest].
    apply negb_true_iff in Hc. rewrite Hc. now rewrite (IH Hrest).
Qed.

(** C10.  [confSliceOf] compares the byte length of the raw string [v],
    not the number of parsed elements, with [minLen] and [maxLen], and
    appends the parsed elements to what the target slice already holds.
    When every comma-separated piece parses, the call succeeds exactly when
    [minLen <= len v <= maxLen]; so in [envMap], where the bounds are 2 and
    [math.MaxInt64], a string without a comma of two bytes or more is
    accepted although it yields one key only. *)
Theorem confSliceOf_checks_string_length :
  forall (T : Type) (elemFunc : string -> Result T) (v : string)
         (tgt ps : list T) (minLen maxLen : Z),
    main.parsesTo elemFunc (main.Split v main.comma) ps ->
    fst (main.confSliceOf elemFunc v tgt minLen maxLen) = (tgt ++ ps)%list
    /\ (snd (main.confSliceOf elemFunc v tgt minLen maxLen) = None
        <-> minLen <= main.len v <= maxLen)
    /\ (minLen <= main.len v <= maxLen ->
        main.confSliceOf elemFunc v tgt minLen maxLen = ((tgt ++ ps)%list, None))
    /\ (main.noComma v = true -> 2 <= main.len v <= main.MaxInt64 ->
        exists key,
          ps = [key]
          /\ main.envMap_keys elemFunc v tgt = ((tgt ++ [key])%list, None)
          /\ Z.of_nat (List.length ps) < 2).
Proof.
  intros T elemFunc v tgt ps minLen maxLen H.
  pose proof (confSliceOf_parsed T elemFunc v tgt ps minLen maxLen H) as E.
  assert (B : (main.len v <? minLen) || (main.len v >? maxLen) = false
              <-> minLen <= main.len v <= maxLen).
  { rewrite orb_false_iff, Z.ltb_ge, Z.gtb_ltb, Z.ltb_ge. lia. }
  split; [|split; [|split]].
  - rewrite E. now destruct (_ || _).
  - rewrite E. split.
    + destruct (_ || _); simpl; intros D; [discriminate|]. now apply B.
    + intros Hb. apply B in Hb. now rewrite Hb.
  - intros Hb. rewrite E. apply B in Hb. now rewrite Hb.
  - intros Hn Hlen. rewrite (Split_noComma v Hn) in H.
    destruct ps as [|key [|q ps]]; simpl in H; try tauto.
    exists key. split; [reflexivity|]. split; [|simpl; lia].
    unfold main.envMap_keys.
    rewrite (confSliceOf_parsed T elemFunc v tgt [key] 2 main.MaxInt64).
    + assert (B2 : (main.len v <? 2) || (main.len v >? main.MaxInt64) = false).
      { rewrite orb_false_iff, Z.ltb_ge, Z.gtb_ltb, Z.ltb_ge. lia. }
      now rewrite B2.
    + rewrite (Split_noComma v Hn). simpl. tauto.
Qed.

(** The variable HTTP_COOKIE_KEYS set to one key: accepted, one key
    stored. *)
Lemma confSliceOf_checks_string_length_witness :
  fst (main.confSliceOf sim.parseKey "0a1b" [] 2 main.MaxInt64) = ([] ++ ["0a1b"])%list
  /\ main.envMap_keys sim.parseKey "0a1b" [] = (["0a1b"], None).
Proof.
  destruct (confSliceOf_checks_string_length string sim.parseKey "0a1b" []
              ["0a1b"] 2 main.MaxInt64) as (Hfst & _ & _ & Hone).
  - simpl. auto.
  - split; [exact Hfst|].
    destruct Hone as (key & Hk & Hr & _).
    + reflexivity.
    + unfold main.len, main.MaxInt64. simpl. lia.
    + injection Hk as <-. exact Hr.
Defined.

(** ** Errors *)

Lemma errors_eqb_refl : forall e, errors.eqb e e = true.
Proof.
  induction e as [s|f a|f a e IH|a IHa b IHb]; simpl.
  - apply String.eqb_refl.
  - rewrite String.eqb_refl. now destruct (list_eq_dec Z.eq_dec a a).
  - rewrite String.eqb_refl, IH. now destruct (list_eq_dec Z.eq_dec a a).
  - now rewrite IHa, IHb.
Qed.

Lemma errors_Is_refl : forall e, errors.Is e e = true.
Proof.
  intros e. destruct e; simpl; rewrite ?String.eqb_refl; try reflexivity.
  - now destruct (list_eq_dec Z.eq_dec args args).
  - rewrite errors_eqb_refl. now destruct (list_eq_dec Z.eq_dec args args).
  - now rewrite !errors_eqb_refl.
Qed.

Lemma errors_Is_afterRollback :
  forall e rb, errors.Is (afterRollback e rb) e = true.
Proof.
  intros e [r|]; simpl.
  - rewrite errors_Is_refl. now rewrite orb_true_r.
  - apply errors_Is_refl.
Qed.

(** Symbolic execution of the service: [run op] names the result and the
    world that the next call of [op] leaves. *)
Ltac tidy :=
  cbn [fst snd world calls wg goroutines negb errors.Join
       EmailToken.ID EmailToken.TokenHash EmailToken.UserID EmailToken.Email
       EmailToken.Purpose EmailToken.CreatedAt EmailToken.ConsumedAt].

Ltac run op :=
  match goal with
  | |- context [op ?w] =>
      let r := fresh "r" in let w' := fresh "w" in let E := fresh "E" in
      destruct (op w) as [r w'] eqn:E; tidy
  end.

Ltac path c :=
  eexists; rewrite <- ?app_assoc; cbn [app];
  split; [reflexivity|]; split; [c|auto].

(** ** The service *)

Section ServiceFacts.
Context {W Ctx T : Type} {store : auth.Store W Ctx T} {deps : auth.Deps W Ctx}.

Lemma startActivation_path :
  forall (ctx : Ctx) (user : User.t) (s : State W Ctx T),
  exists new,
    calls (snd (startActivation ctx user s)) = (calls s ++ new)%list
    /\ ActivationPath user new (fst (startActivation ctx user s))
    /\ wg (snd (startActivation ctx user s)) = wg s
    /\ goroutines (snd (startActivation ctx user s)) = goroutines s.
Proof.
  intros ctx user s.
  unfold startActivation, inTx, startActivation_tx, call, bind, ret.
  run GenerateToken. destruct r as [tok|e]; tidy.
  2:{ path ltac:(apply PathGenerateFails). }
  run (Token_Hash tok). destruct r as [h|e]; tidy.
  2:{ path ltac:(apply PathHashFails). }
  run (BeginTx ctx). destruct r as [tx|e]; tidy.
  2:{ path ltac:(apply PathBeginFails). }
  run (FindUserByEmail tx (User.Email user)). destruct r as [found|e]; tidy.
  { run (Rollback tx). destruct r as [rb|]; tidy;
      [ path ltac:(apply (PathDuplicate user tok h tx found (Some rb)))
      | path ltac:(apply (PathDuplicate user tok h tx found None)) ]. }
  destruct (errors.Is e errorz.ErrNotFound) eqn:HIs; tidy.
  2:{ run (Rollback tx). destruct r as [rb|]; tidy;
      [ path ltac:(apply (PathFindFails user tok h tx e (Some rb) HIs))
      | path ltac:(apply (PathFindFails user tok h tx e None HIs)) ]. }
  run (CreateUser tx user). destruct r as [user' [e'|]]; tidy.
  { run (Rollback tx). destruct r as [rb|]; tidy;
      [ path ltac:(apply (PathCreateUserFails user tok h tx e user' e' (Some rb) HIs))
      | path ltac:(apply (PathCreateUserFails user tok h tx e user' e' None HIs)) ]. }
  run (CreateEmailToken tx). destruct r as [tok' [e'|]]; tidy.
  { run (Rollback tx). destruct r as [rb|]; tidy;
      [ path ltac:(apply (PathCreateTokenFails user tok h tx e user' tok' e' (Some rb) HIs))
      | path ltac:(apply (PathCreateTokenFails user tok h tx e user' tok' e' None HIs)) ]. }
  run (Commit tx). destruct r as [e'|]; tidy.
  { path ltac:(apply (PathCommitFails user tok h tx e user' tok' e' HIs)). }
  run (Send ctx "account-activation" (User.Email user')).
  destruct r as [e'|]; tidy;
    [ path ltac:(apply (PathSend user tok h tx e user' tok' (Some e') HIs))
    | path ltac:(apply (PathSend user tok h tx e user' tok' None HIs)) ].
Qed.

Lemma inTx_run :
  forall (L : Type) (ctx : Ctx)
         (f : T -> L -> M (State W Ctx T) (L * option error)) (l : L)
         (s : State W Ctx T) (tx : T) (w1 : W),
    BeginTx ctx (world s) = (Ok tx, w1) ->
    let s1 := mkState w1 (calls s ++ [EvBeginTx (Ok tx)]) (wg s)
                      (goroutines s) in
    let l' := fst (fst (f tx l s1)) in
    let s2 := snd (f tx l s1) in
    inTx ctx f l s =
    match snd (fst (f tx l s1)) with
    | Some err =>
        let rb := Rollback tx (world s2) in
        ((l', Some (afterRollback err (fst rb))),
         mkState (snd rb) (calls s2 ++ [EvRollback tx (fst rb)]) (wg s2)
                 (goroutines s2))
    | None =>
        let r := Commit tx (world s2) in
        ((l', fst r),
         mkState (snd r) (calls s2 ++ [EvCommit tx (fst r)]) (wg s2)
                 (goroutines s2))
    end.
Proof.
  intros L ctx f l s tx w1 HB. unfold inTx, call, bind, ret.
  rewrite HB. tidy.
  destruct (f tx l _) as [[l' [err|]] s2]; tidy.
  - destruct (Rollback tx (world s2)) as [[rb|] w3]; reflexivity.
  - destruct (Commit tx (world s2)) as [[e|] w3]; reflexivity.
Qed.

Lemma startActivation_found :
  forall (ctx : Ctx) (user : User.t) (s : State W Ctx T) tok h tx found
         w1 w2 w3 w4,
    GenerateToken (world s) = (Ok tok, w1) ->
    Token_Hash tok w1 = (Ok h, w2) ->
    BeginTx ctx w2 = (Ok tx, w3) ->
    FindUserByEmail tx (User.Email user) w3 = (Ok found, w4) ->
    startActivation ctx user s =
    (Some (afterRollback ErrDuplicateAccount (fst (Rollback tx w4))),
     mkState (snd (Rollback tx w4))
             (calls s ++
              [EvGenerateToken T (Ok tok); EvTokenHash T tok (Ok h);
               EvBeginTx (Ok tx);
               EvFindUserByEmail tx (User.Email user) (Ok found);
               EvRollback tx (fst (Rollback tx w4))])
             (wg s) (goroutines s)).
Proof.
  intros ctx user s tok h tx found w1 w2 w3 w4 HG HH HB HF.
  unfold startActivation, inTx, startActivation_tx, call, bind, ret.
  rewrite HG; tidy. rewrite HH; tidy. rewrite HB; tidy. rewrite HF; tidy.
  destruct (Rollback tx w4) as [[rb|] w5]; tidy;
    rewrite <- !app_assoc; reflexivity.
Qed.

Lemma startActivation_created :
  forall (ctx : Ctx) (user : User.t) (s : State W Ctx T) tok h tx e
         user' tok' w1 w2 w3 w4 w5 w6,
    GenerateToken (world s) = (Ok tok, w1) ->
    Token_Hash tok w1 = (Ok h, w2) ->
    BeginTx ctx w2 = (Ok tx, w3) ->
    FindUserByEmail tx (User.Email user) w3 = (Err e, w4) ->
    errors.Is e errorz.ErrNotFound = true ->
    CreateUser tx user w4 = ((user', None), w5) ->
    CreateEmailToken tx
      (EmailToken.mk 0 h (User.ID user') (User.Email user)
                     TokenPurposeActivate 0 None) w5 = ((tok', None), w6) ->
    let d := mkActivationData (EmailToken.ID tok') tok in
    let before :=
      [EvGenerateToken T (Ok tok); EvTokenHash T tok (Ok h);
       EvBeginTx (Ok tx);
       EvFindUserByEmail tx (User.Email user) (Err e);
       EvCreateUser tx user (user', None);
       EvCreateEmailToken tx
         (EmailToken.mk 0 h (User.ID user') (User.Email user)
                        TokenPurposeActivate 0 None) (tok', None)] in
    startActivation ctx user s =
    match Commit tx w6 with
    | (Some err, w7) =>
        (Some err,
         mkState w7 (calls s ++ before ++ [EvCommit tx (Some err)]) (wg s)
                 (goroutines s))
    | (None, w7) =>
        let sent := Send ctx "account-activation" (User.Email user') d w7 in
        (fst sent,
         mkState (snd sent)
                 (calls s ++ before ++
                  [EvCommit tx None;
                   EvSend T "account-activation" (User.Email user') d
                          (fst sent)])
                 (wg s) (goroutines s))
    end.
Proof.
  intros ctx user s tok h tx e user' tok' w1 w2 w3 w4 w5 w6
         HG HH HB HF HIs HU HT d before.
  unfold startActivation, inTx, startActivation_tx, call, bind, ret.
  rewrite HG; tidy. rewrite HH; tidy. rewrite HB; tidy. rewrite HF; tidy.
  rewrite HIs; tidy. rewrite HU; tidy. rewrite HT; tidy.
  destruct (Commit tx w6) as [[err|] w7]; tidy.
  - subst before. rewrite <- !app_assoc. reflexivity.
  - subst before d.
    destruct (Send ctx _ _ _ w7) as [[err|] w8]; tidy;
      rewrite <- !app_assoc; reflexivity.
Qed.

End ServiceFacts.

(** C4.  A function run through [inTx] on a transaction that [BeginTx]
    opened: when it returns an error, [Rollback] is the next and last call
    before [inTx] returns, the error returned is that error, joined with the
    error of [Rollback] when that fails too; when it returns nil, [Commit]
    is the one call that follows and its result is what [inTx] returns. *)
Theorem inTx_rollback_on_error_commit_on_success :
  forall (W Ctx T : Type) (store : Store W Ctx T) (L : Type) (ctx : Ctx)
         (f : T -> L -> M (State W Ctx T) (L * option error)) (l : L)
         (s : State W Ctx T) (tx : T) (w1 : W),
    BeginTx ctx (world s) = (Ok tx, w1) ->
    let s1 := mkState w1 (calls s ++ [EvBeginTx (Ok tx)]) (wg s) (goroutines s) in
    let s2 := snd (f tx l s1) in
    let out := inTx ctx f l s in
    (forall err,
        snd (fst (f tx l s1)) = Some err ->
        let rb := Rollback tx (world s2) in
        calls (snd out) = (calls s2 ++ [EvRollback tx (fst rb)])%list
        /\ world (snd out) = snd rb
        /\ snd (fst out) = Some (afterRollback err (fst rb))
        /\ errors.Is (afterRollback err (fst rb)) err = true
        /\ (forall rBackErr, fst rb = Some rBackErr ->
            snd (fst out) = Some (errors.Joined err rBackErr)
            /\ errors.Is (errors.Joined err rBackErr) rBackErr = true)
        /\ (fst rb = None -> snd (fst out) = Some err))
    /\ (snd (fst (f tx l s1)) = None ->
        let r := Commit tx (world s2) in
        calls (snd out) = (calls s2 ++ [EvCommit tx (fst r)])%list
        /\ world (snd out) = snd r
        /\ snd (fst out) = fst r).
Proof.
  intros W Ctx T store L ctx f l s tx w1 HB s1 s2 out.
  pose proof (inTx_run L ctx f l s tx w1 HB) as E. cbv zeta in E.
  fold s1 in E. fold s2 in E. fold out in E.
  split.
  - intros err Hf rb. rewrite Hf in E. fold rb in E. rewrite E. cbn [fst snd calls world].
    repeat (split; [reflexivity|]).
    split; [apply errors_Is_afterRollback|]. split.
    + intros rBackErr Hrb. rewrite Hrb. cbn [afterRollback]. split; [reflexivity|].
      simpl. rewrite (errors_Is_refl rBackErr). now rewrite !orb_true_r.
    + intros Hrb. now rewrite Hrb.
  - intros Hf r. rewrite Hf in E. fold r in E. rewrite E. cbn [fst snd calls world].
    auto.
Qed.

(** [In] over an explicit list of events, one element at a time. *)
(** An event is among the calls, which end with an explicit list. *)
Ltac in_calls :=
  rewrite <- ?app_assoc; apply in_or_app; right; cbn [In app]; tauto.

Ltac in_cases H :=
  repeat (destruct H as [H|H]; [try discriminate H|]); try contradiction H.

(** C3.  Once [startActivation] has its token and its transaction: when
    [FindUserByEmail] returns a user, active or not, the error returned is
    [ErrDuplicateAccount] (joined with the error of [Rollback] when that
    fails) and the calls end with that [Rollback]; [CreateUser] and
    [CreateEmailToken] are called only in a run in which [FindUserByEmail]
    failed with an error that is [ErrNotFound]; and in such a run
    [CreateUser] is called and, when it succeeds, [CreateEmailToken] with
    the id of the new user. *)
Theorem startActivation_duplicate_account :
  forall (W Ctx T : Type) (store : Store W Ctx T) (deps : Deps W Ctx)
         (ctx : Ctx) (user : User.t) (s : State W Ctx T),
    (forall tok h tx found w1 w2 w3 w4,
        GenerateToken (world s) = (Ok tok, w1) ->
        Token_Hash tok w1 = (Ok h, w2) ->
        BeginTx ctx w2 = (Ok tx, w3) ->
        FindUserByEmail tx (User.Email user) w3 = (Ok found, w4) ->
        exists err,
          fst (startActivation ctx user s) = Some err
          /\ errors.Is err ErrDuplicateAccount = true
          /\ (fst (Rollback tx w4) = None -> err = ErrDuplicateAccount)
          /\ calls (snd (startActivation ctx user s)) =
             (calls s ++
              [EvGenerateToken T (Ok tok); EvTokenHash T tok (Ok h);
               EvBeginTx (Ok tx);
               EvFindUserByEmail tx (User.Email user) (Ok found);
               EvRollback tx (fst (Rollback tx w4))])%list)
    /\ (forall new tx,
          calls (snd (startActivation ctx user s)) = (calls s ++ new)%list ->
          (exists u r, In (EvCreateUser tx u r) new)
          \/ (exists t r, In (EvCreateEmailToken tx t r) new) ->
          exists e,
            In (EvFindUserByEmail tx (User.Email user) (Err e)) new
            /\ errors.Is e errorz.ErrNotFound = true)
    /\ (forall tok h tx e w1 w2 w3 w4,
          GenerateToken (world s) = (Ok tok, w1) ->
          Token_Hash tok w1 = (Ok h, w2) ->
          BeginTx ctx w2 = (Ok tx, w3) ->
          FindUserByEmail tx (User.Email user) w3 = (Err e, w4) ->
          errors.Is e errorz.ErrNotFound = true ->
          let created := fst (CreateUser tx user w4) in
          In (EvCreateUser tx user created)
             (calls (snd (startActivation ctx user s)))
          /\ (snd created = None ->
              exists r,
                In (EvCreateEmailToken tx
                      (EmailToken.mk 0 h (User.ID (fst created))
                                     (User.Email user) TokenPurposeActivate
                                     0 None) r)
                   (calls (snd (startActivation ctx user s))))).
Proof.
  intros W Ctx T store deps ctx user s. split; [|split].
  - intros tok h tx found w1 w2 w3 w4 HG HH HB HF.
    rewrite (startActivation_found ctx user s tok h tx found w1 w2 w3 w4
               HG HH HB HF).
    eexists. split; [reflexivity|]. split; [apply errors_Is_afterRollback|].
    split; [|reflexivity].
    intros Hrb. now rewrite Hrb.
  - intros new tx Hcalls Hcreate.
    destruct (startActivation_path ctx user s) as (new' & Hc & HP & _).
    rewrite Hcalls in Hc. apply app_inv_head in Hc. subst new'.
    destruct Hcreate as [(u & r & HIn)|(t & r & HIn)];
      inversion HP; subst; cbn [In] in HIn; in_cases HIn;
      injection HIn as -> _ _;
      (eexists; split; [cbn [In]; do 3 right; left; reflexivity|assumption]).
  - intros tok h tx e w1 w2 w3 w4 HG HH HB HF HIs.
    unfold startActivation, inTx, startActivation_tx, call, bind, ret.
    rewrite HG; tidy. rewrite HH; tidy. rewrite HB; tidy. rewrite HF; tidy.
    rewrite HIs; tidy.
    run (CreateUser tx user). destruct r as [user' [e'|]]; tidy.
    { run (Rollback tx). split; [|discriminate]. destruct r; tidy; in_calls. }
    run (CreateEmailToken tx). destruct r as [tok' [e'|]]; tidy.
    { run (Rollback tx).
      destruct r; tidy; (split; [|intros _; eexists]); in_calls. }
    run (Commit tx). destruct r as [e'|]; tidy.
    { split; [|intros _; eexists]; in_calls. }
    run (Send ctx "account-activation" (User.Email user')).
    destruct r; tidy; (split; [|intros _; eexists]); in_calls.
Qed.

(** C9.  A run of [startActivation] that calls [Send] is the run in which
    every step of the transaction succeeded: [Send] is its last call and
    follows a [Commit] that returned nil; it is given the raw token and the
    id of the stored token, while the record given to [CreateEmailToken]
    holds the hash.  A run in which [BeginTx], a step of the transaction or
    [Commit] failed, or in which [Rollback] was called, has no [Send].
    After a successful [Commit] the result of [Send] is what
    [startActivation] returns, and the world is the one [Send] left from
    the committed one: nothing is undone when [Send] fails. *)
Theorem startActivation_sends_after_commit :
  forall (W Ctx T : Type) (store : Store W Ctx T) (deps : Deps W Ctx)
         (ctx : Ctx) (user : User.t) (s : State W Ctx T),
    (forall new name to d r,
        calls (snd (startActivation ctx user s)) = (calls s ++ new)%list ->
        In (EvSend T name to d r) new ->
        exists tok h tx e user' tok',
          new =
          [EvGenerateToken T (Ok tok); EvTokenHash T tok (Ok h);
           EvBeginTx (Ok tx);
           EvFindUserByEmail tx (User.Email user) (Err e);
           EvCreateUser tx user (user', None);
           EvCreateEmailToken tx
             (EmailToken.mk 0 h (User.ID user') (User.Email user)
                            TokenPurposeActivate 0 None)
             (tok', None);
           EvCommit tx None;
           EvSend T "account-activation" (User.Email user')
                  (mkActivationData (EmailToken.ID tok') tok) r]
          /\ errors.Is e errorz.ErrNotFound = true
          /\ name = "account-activation"
          /\ to = User.Email user'
          /\ d = mkActivationData (EmailToken.ID tok') tok
          /\ fst (startActivation ctx user s) = r)
    /\ (forall new,
          calls (snd (startActivation ctx user s)) = (calls s ++ new)%list ->
          (exists e, In (EvBeginTx (Err e)) new)
          \/ (exists tx a found, In (EvFindUserByEmail tx a (Ok found)) new)
          \/ (exists tx u u' e, In (EvCreateUser tx u (u', Some e)) new)
          \/ (exists tx t t' e, In (EvCreateEmailToken tx t (t', Some e)) new)
          \/ (exists tx rb, In (EvRollback tx rb) new)
          \/ (exists tx e, In (EvCommit tx (Some e)) new) ->
          forall name to d r, ~ In (EvSend T name to d r) new)
    /\ (forall tok h tx e user' tok' w1 w2 w3 w4 w5 w6 w7,
          GenerateToken (world s) = (Ok tok, w1) ->
          Token_Hash tok w1 = (Ok h, w2) ->
          BeginTx ctx w2 = (Ok tx, w3) ->
          FindUserByEmail tx (User.Email user) w3 = (Err e, w4) ->
          errors.Is e errorz.ErrNotFound = true ->
          CreateUser tx user w4 = ((user', None), w5) ->
          CreateEmailToken tx
            (EmailToken.mk 0 h (User.ID user') (User.Email user)
                           TokenPurposeActivate 0 None) w5
          = ((tok', None), w6) ->
          Commit tx w6 = (None, w7) ->
          let d := mkActivationData (EmailToken.ID tok') tok in
          let sent := Send ctx "account-activation" (User.Email user') d w7 in
          startActivation ctx user s =
          (fst sent,
           mkState (snd sent)
             (calls s ++
              [EvGenerateToken T (Ok tok); EvTokenHash T tok (Ok h);
               EvBeginTx (Ok tx);
               EvFindUserByEmail tx (User.Email user) (Err e);
               EvCreateUser tx user (user', None);
               EvCreateEmailToken tx
                 (EmailToken.mk 0 h (User.ID user') (User.Email user)
                                TokenPurposeActivate 0 None)
                 (tok', None);
               EvCommit tx None;
               EvSend T "account-activation" (User.Email user') d (fst sent)])
             (wg s) (goroutines s))).
Proof.
  intros W Ctx T store deps ctx user s.
  assert (Sent : forall new name to d r,
        calls (snd (startActivation ctx user s)) = (calls s ++ new)%list ->
        In (EvSend T name to d r) new ->
        exists tok h tx e user' tok',
          new =
          [EvGenerateToken T (Ok tok); EvTokenHash T tok (Ok h);
           EvBeginTx (Ok tx);
           EvFindUserByEmail tx (User.Email user) (Err e);
           EvCreateUser tx user (user', None);
           EvCreateEmailToken tx
             (EmailToken.mk 0 h (User.ID user') (User.Email user)
                            TokenPurposeActivate 0 None)
             (tok', None);
           EvCommit tx None;
           EvSend T "account-activation" (User.Email user')
                  (mkActivationData (EmailToken.ID tok') tok) r]
          /\ errors.Is e errorz.ErrNotFound = true
          /\ name = "account-activation"
          /\ to = User.Email user'
          /\ d = mkActivationData (EmailToken.ID tok') tok
          /\ fst (startActivation ctx user s) = r).
  { intros new name to d r Hcalls HIn.
    destruct (startActivation_path ctx user s) as (new' & Hc & HP & _).
    rewrite Hcalls in Hc. apply app_inv_head in Hc. subst new'.
    inversion HP; subst; cbn [In] in HIn; in_cases HIn.
    injection HIn as <- <- <- <-.
    exists tok, h, tx, e, user', tok'. auto 10. }
  split; [exact Sent|split].
  - intros new Hcalls Hfail name to d r HIn.
    destruct (Sent new name to d r Hcalls HIn)
      as (tok & h & tx & e & user' & tok' & -> & HIs & _).
    destruct Hfail as [(x & H)|[(x & a & y & H)|[(x & u & u' & y & H)|
                      [(x & t & t' & y & H)|[(x & y & H)|(x & y & H)]]]]];
      cbn [In] in H; in_cases H.
  - intros tok h tx e user' tok' w1 w2 w3 w4 w5 w6 w7
           HG HH HB HF HIs HU HT HC d sent.
    pose proof (startActivation_created ctx user s tok h tx e user' tok'
                  w1 w2 w3 w4 w5 w6 HG HH HB HF HIs HU HT) as E.
    cbv zeta in E. rewrite HC in E. exact E.
Qed.

(** C1.  When the password hashes, [RegisterAccount] returns nil after
    that one call, having started one goroutine and touched no store; when
    hashing fails, that error is returned and nothing is started; no other
    error reaches the caller.  The goroutine runs [startActivation] under
    the timeout and hands every error it returns to [errHandler], the
    duplicate-account error included. *)
Theorem RegisterAccount_returns_nil_and_diverts_errors :
  forall (W Ctx T : Type) (store : Store W Ctx T) (deps : Deps W Ctx)
         (workTimeout : Duration) (ctx : Ctx) (c : Credentials.t)
         (s : State W Ctx T),
    let p := Credentials.Password c in
    (forall pwdHash w1,
        Password_Hash p (world s) = (Ok pwdHash, w1) ->
        let user := User.mk 0 (Credentials.Email c) pwdHash false 0 0 in
        let s1 := mkState w1 (calls s ++ [EvPasswordHash T p (Ok pwdHash)])
                          (wg s + 1) (goroutines s ++ [(ctx, user)]) in
        RegisterAccount ctx c s = (None, s1)
        /\ schedule workTimeout (List.length (goroutines s)) s1 =
           (true,
            snd (RegisterAccount_goroutine workTimeout ctx user
                   (mkState w1 (calls s1) (wg s1) (goroutines s)))))
    /\ (forall err w1,
        Password_Hash p (world s) = (Err err, w1) ->
        RegisterAccount ctx c s =
        (Some err,
         mkState w1 (calls s ++ [EvPasswordHash T p (Err err)]) (wg s)
                 (goroutines s)))
    /\ (forall err,
        fst (RegisterAccount ctx c s) = Some err ->
        fst (Password_Hash p (world s)) = Err err)
    /\ (forall (user : User.t) (s' : State W Ctx T),
        let r := startActivation (WithTimeout ctx workTimeout) user s' in
        RegisterAccount_goroutine workTimeout ctx user s' =
        (tt,
         match fst r with
         | Some err =>
             mkState (snd (errHandler err (world (snd r))))
                     (calls (snd r) ++ [EvErrHandler T err])
                     (wg (snd r) + -1) (goroutines (snd r))
         | None =>
             mkState (world (snd r)) (calls (snd r)) (wg (snd r) + -1)
                     (goroutines (snd r))
         end))
    /\ (forall (user : User.t) (s' : State W Ctx T) tok h tx found w1 w2 w3 w4,
        GenerateToken (world s') = (Ok tok, w1) ->
        Token_Hash tok w1 = (Ok h, w2) ->
        BeginTx (WithTimeout ctx workTimeout) w2 = (Ok tx, w3) ->
        FindUserByEmail tx (User.Email user) w3 = (Ok found, w4) ->
        exists err,
          errors.Is err ErrDuplicateAccount = true
          /\ In (EvErrHandler T err)
                (calls (snd (RegisterAccount_goroutine workTimeout ctx user s')))).
Proof.
  intros W Ctx T store deps workTimeout ctx c s p.
  assert (G : forall (user : User.t) (s' : State W Ctx T),
        let r := startActivation (WithTimeout ctx workTimeout) user s' in
        RegisterAccount_goroutine workTimeout ctx user s' =
        (tt,
         match fst r with
         | Some err =>
             mkState (snd (errHandler err (world (snd r))))
                     (calls (snd r) ++ [EvErrHandler T err])
                     (wg (snd r) + -1) (goroutines (snd r))
         | None =>
             mkState (world (snd r)) (calls (snd r)) (wg (snd r) + -1)
                     (goroutines (snd r))
         end)).
  { intros user s' r. unfold RegisterAccount_goroutine, bind, ret, call, wg_Add.
    fold r. destruct r as [[err|] s2]; tidy.
    - destruct (errHandler err (world s2)) as [[] w]; reflexivity.
    - reflexivity. }
  split; [|split; [|split; [|split]]].
  - intros pwdHash w1 HP user s1. split.
    + unfold RegisterAccount, call, bind, ret, wg_Add, go. fold p.
      rewrite HP. reflexivity.
    + unfold schedule. subst s1. tidy.
      rewrite nth_error_app2 by apply Nat.le_refl.
      rewrite Nat.sub_diag. cbn [nth_error].
      rewrite firstn_app, Nat.sub_diag, firstn_all, app_nil_r.
      rewrite skipn_app, skipn_all2 by (apply Nat.le_succ_diag_r).
      replace (S (List.length (goroutines s)) - List.length (goroutines s))%nat
        with 1%nat by lia.
      cbn [skipn app]. rewrite app_nil_r. reflexivity.
  - intros err w1 HP. unfold RegisterAccount, call, bind, ret. fold p.
    rewrite HP. reflexivity.
  - intros err. unfold RegisterAccount, call, bind, ret, wg_Add, go. fold p.
    destruct (Password_Hash p (world s)) as [[h|e] w1]; tidy.
    + discriminate.
    + now intros [= ->].
  - exact G.
  - intros user s' tok h tx found w1 w2 w3 w4 HG HH HB HF.
    rewrite (G user s'). cbv zeta.
    rewrite (startActivation_found (WithTimeout ctx workTimeout) user s'
               tok h tx found w1 w2 w3 w4 HG HH HB HF).
    tidy. eexists. split; [apply errors_Is_afterRollback|].
    apply in_or_app. right. left. reflexivity.
Qed.

(** A duplicate registration is rolled back; a first one is committed. *)
Lemma inTx_rollback_on_error_commit_on_success_witness :
  snd (fst (inTx tt startActivation_tx (sim.newUser, sim.pendingToken)
              (sim.state0 (sim.registered sim.newUser [] false))))
  = Some ErrDuplicateAccount
  /\ snd (fst (inTx tt startActivation_tx (sim.newUser, sim.pendingToken)
                 (sim.state0 (sim.world0 [] false))))
     = None.
Proof.
  split.
  - destruct (inTx_rollback_on_error_commit_on_success
                sim.World unit db.Tx sim.store _ tt startActivation_tx
                (sim.newUser, sim.pendingToken)
                (sim.state0 (sim.registered sim.newUser [] false)) tt _
                eq_refl) as [H _].
    destruct (H ErrDuplicateAccount eq_refl) as (_ & _ & _ & _ & _ & Hret).
    exact (Hret eq_refl).
  - destruct (inTx_rollback_on_error_commit_on_success
                sim.World unit db.Tx sim.store _ tt startActivation_tx
                (sim.newUser, sim.pendingToken)
                (sim.state0 (sim.world0 [] false)) tt _
                eq_refl) as [_ H].
    destruct (H eq_refl) as (_ & _ & Hret).
    exact Hret.
Defined.

(** Alice registers again while her first, inactive account exists. *)
Lemma startActivation_duplicate_account_witness :
  exists err,
    fst (startActivation tt sim.newUser
           (sim.state0 (sim.registered sim.newUser ["raw-token"] false)))
    = Some err
    /\ errors.Is err ErrDuplicateAccount = true.
Proof.
  destruct (startActivation_duplicate_account
              sim.World unit db.Tx sim.store sim.deps tt sim.newUser
              (sim.state0 (sim.registered sim.newUser ["raw-token"] false)))
    as (H & _ & _).
  destruct (H "raw-token" (sim.hashOf "raw-token") tt _ _ _ _ _
              eq_refl eq_refl eq_refl eq_refl) as (err & Hret & HIs & _).
  exists err. split; assumption.
Defined.

(** Registering an address that is taken returns nil all the same. *)
Lemma RegisterAccount_returns_nil_and_diverts_errors_witness :
  RegisterAccount tt (Credentials.mk "alice@example.com" "correct horse")
    (sim.state0 (sim.registered sim.newUser ["raw-token"] false))
  = (None,
     mkState (sim.registered sim.newUser ["raw-token"] false)
       [EvPasswordHash db.Tx "correct horse" (Ok (sim.hashOf "correct horse"))]
       1
       [(tt, User.mk 0 "alice@example.com" (sim.hashOf "correct horse") false 0 0)]).
Proof.
  destruct (RegisterAccount_returns_nil_and_diverts_errors
              sim.World unit db.Tx sim.store sim.deps 30 tt
              (Credentials.mk "alice@example.com" "correct horse")
              (sim.state0 (sim.registered sim.newUser ["raw-token"] false)))
    as (H & _).
  destruct (H (sim.hashOf "correct horse") _ eq_refl) as [Hret _].
  exact Hret.
Defined.

(** The world that the computation [c] leaves from [w], evaluated. *)
Ltac world_after c w :=
  let w' := eval vm_compute in (snd (c w)) in exact w'.

(** The transport is down: the error comes back, the user and the token
    hash stay committed. *)
Lemma startActivation_sends_after_commit_witness :
  let s' := snd (startActivation tt sim.newUser
                   (sim.state0 (sim.world0 ["raw-token"] true))) in
  fst (startActivation tt sim.newUser
         (sim.state0 (sim.world0 ["raw-token"] true)))
  = Some (errors.New "transport down")
  /\ map User.Email (db.users (db.committed (sim.database (world s'))))
     = ["alice@example.com"]
  /\ map EmailToken.TokenHash
         (db.emailTokens (db.committed (sim.database (world s'))))
     = [sim.hashOf "raw-token"].
Proof.
  pose (w0 := sim.world0 ["raw-token"] true).
  pose (h := sim.hashOf "raw-token").
  pose (w1 := ltac:(world_after (@GenerateToken _ _ sim.deps) w0)).
  pose (w3 := ltac:(world_after (BeginTx tt) w1)).
  pose (w5 := ltac:(world_after (CreateUser tt sim.newUser) w3)).
  pose (user' := ltac:(let u := eval vm_compute in
                         (fst (fst (CreateUser tt sim.newUser w3))) in exact u)).
  pose (t1 := EmailToken.mk 0 h (User.ID user') "alice@example.com"
                            TokenPurposeActivate 0 None).
  pose (w6 := ltac:(world_after (CreateEmailToken tt t1) w5)).
  pose (tok' := ltac:(let u := eval vm_compute in
                         (fst (fst (CreateEmailToken tt t1 w5))) in exact u)).
  pose (w7 := ltac:(world_after (Commit tt) w6)).
  destruct (startActivation_sends_after_commit
              sim.World unit db.Tx sim.store sim.deps tt sim.newUser
              (sim.state0 w0))
    as (_ & _ & H).
  specialize (H "raw-token" h tt errorz.ErrNotFound user' tok'
                w1 w1 w3 w3 w5 w6 w7).
  cbv zeta in H. cbv zeta. fold w0.
  rewrite H by (vm_compute; reflexivity).
  vm_compute. auto.
Defined.

(** ** The store *)

Lemma nextID_above : forall ids x, In x ids -> x < db.nextID ids.
Proof.
  unfold db.nextID. induction ids as [|y ids IH]; intros x H; simpl in *.
  - contradiction.
  - destruct H as [<-|H]; [lia|]. specialize (IH x H). lia.
Qed.

Lemma nextID_positive : forall ids, 0 < db.nextID ids.
Proof.
  unfold db.nextID. induction ids as [|y ids IH]; simpl; lia.
Qed.

Lemma find_absent :
  forall (A : Type) (p : A -> bool) (l : list A),
    (forall x, In x l -> p x = false) -> find p l = None.
Proof.
  induction l as [|y l IH]; intros H; simpl.
  - reflexivity.
  - rewrite (H y (or_introl eq_refl)). apply IH. intros x Hx. apply H. now right.
Qed.

Lemma find_app_found :
  forall (A : Type) (p : A -> bool) (l l' : list A) (x : A),
    find p l = Some x -> find p (l ++ l') = Some x.
Proof.
  induction l as [|y l IH]; intros l' x H; simpl in *.
  - discriminate.
  - destruct (p y); [assumption|now apply IH].
Qed.

Lemma find_map_same_key :
  forall (A : Type) (p : A -> bool) (g : A -> A) (l : list A),
    (forall x, p (g x) = p x) ->
    find p (map g l) = option_map g (find p l).
Proof.
  induction l as [|y l IH]; intros H; simpl.
  - reflexivity.
  - rewrite H. destruct (p y); [reflexivity|now apply IH].
Qed.

Lemma memZ_In : forall x l, db.memZ x l = true <-> In x l.
Proof.
  unfold db.memZ. intros x l. rewrite existsb_exists. split.
  - intros (y & Hy & E). apply Z.eqb_eq in E. now subst.
  - intros H. exists x. split; [assumption|apply Z.eqb_refl].
Qed.

Lemma memS_In : forall x l, db.memS x l = true <-> In x l.
Proof.
  unfold db.memS. intros x l. rewrite existsb_exists. split.
  - intros (y & Hy & E). apply String.eqb_eq in E. now subst.
  - intros H. exists x. split; [assumption|apply String.eqb_refl].
Qed.

Lemma matches_satisfies :
  forall f u, db.matches f u = true <-> db.satisfies f u.
Proof.
  intros [ids ems act] u. unfold db.matches, db.satisfies. simpl.
  rewrite !andb_true_iff, !orb_true_iff, memZ_In, memS_In. split.
  - intros [[Hi He] Ha]. repeat split.
    + intros l [= ->] Hne. destruct Hi as [Hi|Hi]; [|exact Hi].
      destruct l; [contradiction|discriminate].
    + intros l [= ->] Hne. destruct He as [He|He]; [|exact He].
      destruct l; [contradiction|discriminate].
    + intros b [= ->]. now apply Bool.eqb_prop.
  - intros (Hi & He & Ha). repeat split.
    + destruct ids as [[|i l]|]; [now left|right|now left].
      apply (Hi (i :: l) eq_refl). discriminate.
    + destruct ems as [[|i l]|]; [now left|right|now left].
      apply (He (i :: l) eq_refl). discriminate.
    + destruct act as [b|]; [|reflexivity].
      rewrite (Ha b eq_refl). apply Bool.eqb_reflx.
Qed.

Lemma filter_Subseq :
  forall (A : Type) (p : A -> bool) (l : list A), Subseq (filter p l) l.
Proof.
  induction l as [|x l IH]; simpl.
  - constructor.
  - destruct (p x); now constructor.
Qed.

(** C2, as amended.  [FindUsers] returns, without error, the users that
    satisfy every dimension of the filter that has at least one element, in
    creation order; the result is empty when no user does.  A dimension of
    length zero, nil or not, puts no condition: with all of them empty and
    no active flag every user is returned. *)
Theorem FindUsers_and_of_nonempty_dimensions :
  forall (f : UserFilter.t) (d : db.DB),
    exists us,
      db.FindUsers tt f d = (Ok us, d)
      /\ (forall u, In u us <-> In u (db.users (db.work d)) /\ db.satisfies f u)
      /\ Subseq us (db.users (db.work d))
      /\ ((forall u, In u (db.users (db.work d)) -> ~ db.satisfies f u) ->
          us = [])
      /\ (db.isEmpty (UserFilter.IDs f) = true ->
          db.isEmpty (UserFilter.Emails f) = true ->
          UserFilter.IsActive f = None ->
          us = db.users (db.work d)).
Proof.
  intros f d. exists (filter (db.matches f) (db.users (db.work d))).
  split; [reflexivity|]. split; [|split; [|split]].
  - intros u. rewrite filter_In, matches_satisfies. tauto.
  - apply filter_Subseq.
  - intros Hnone.
    destruct (filter (db.matches f) (db.users (db.work d))) as [|u us] eqn:E;
      [reflexivity|].
    assert (HIn : In u (filter (db.matches f) (db.users (db.work d)))).
    { rewrite E. now left. }
    apply filter_In in HIn. destruct HIn as [HIn Hm].
    apply matches_satisfies in Hm. now destruct (Hnone u HIn).
  - intros Hi He Ha. unfold db.matches. rewrite Hi, He, Ha. simpl.
    induction (db.users (db.work d)) as [|u us IH]; simpl; [reflexivity|].
    now rewrite IH.
Qed.

(** C2 as stated fails: the case "ok, all users, empty slices" of
    [Test_Tx_FindUser].  With [IDs] and [Emails] empty and not nil, the
    three users come back, not none. *)
Lemma FindUsers_empty_sets_match_all :
  fst (db.FindUsers tt (UserFilter.mk (Some []) (Some []) None) sim.threeUsers)
  = Ok (db.users (db.work sim.threeUsers))
  /\ map User.ID (db.users (db.work sim.threeUsers)) = [1; 2; 3]
  /\ fst (db.FindUsers tt (UserFilter.mk (Some []) (Some []) None)
            sim.threeUsers) <> Ok [].
Proof. repeat split. discriminate. Qed.

(** What one operation does to the failed state. *)
Lemma exec_badState :
  forall op d,
    db.badState (snd (db.exec tt op d)) =
    db.badState d || db.rejectedUpdate (op, fst (db.exec tt op d)).
Proof.
  intros op d. destruct op as [u|u|v|f|t|t|id]; unfold db.exec, bind, ret.
  - unfold db.CreateUser, db.now, db.setWork.
    destruct (negb _); [simpl; now rewrite orb_false_r|].
    destruct (existsb _ _); simpl; now rewrite orb_false_r.
  - unfold db.UpdateUser, db.now, db.setWork.
    destruct (db.findUser _ _); [|simpl; now rewrite orb_false_r].
    destruct (existsb _ _); simpl; now rewrite orb_false_r.
  - unfold db.FindUserByEmail.
    destruct (find _ _); simpl; now rewrite orb_false_r.
  - unfold db.FindUsers. simpl. now rewrite orb_false_r.
  - unfold db.CreateEmailToken, db.now, db.setWork.
    destruct (negb _); [simpl; now rewrite orb_false_r|].
    destruct (db.findUser _ _); simpl; now rewrite orb_false_r.
  - unfold db.UpdateEmailToken, db.setWork.
    destruct (db.findToken _ _); [|simpl; now rewrite orb_false_r].
    destruct (negb _); simpl.
    + now rewrite orb_true_r.
    + now rewrite orb_false_r.
  - unfold db.FindEmailTokenByID.
    destruct (db.findToken _ _); simpl; now rewrite orb_false_r.
Qed.

Lemma exec_committed :
  forall op d, db.committed (snd (db.exec tt op d)) = db.committed d.
Proof.
  intros op d. destruct op as [u|u|v|f|t|t|id]; unfold db.exec, bind, ret.
  - unfold db.CreateUser, db.now, db.setWork.
    destruct (negb _); [reflexivity|]. now destruct (existsb _ _).
  - unfold db.UpdateUser, db.now, db.setWork.
    destruct (db.findUser _ _); [|reflexivity]. now destruct (existsb _ _).
  - unfold db.FindUserByEmail. now destruct (find _ _).
  - reflexivity.
  - unfold db.CreateEmailToken, db.now, db.setWork.
    destruct (negb _); [reflexivity|]. now destruct (db.findUser _ _).
  - unfold db.UpdateEmailToken, db.setWork.
    destruct (db.findToken _ _); [|reflexivity]. now destruct (negb _).
  - unfold db.FindEmailTokenByID. now destruct (db.findToken _ _).
Qed.

Lemma run_cons :
  forall op ops d,
    db.run tt (op :: ops) d =
    (fst (db.exec tt op d) :: fst (db.run tt ops (snd (db.exec tt op d))),
     snd (db.run tt ops (snd (db.exec tt op d)))).
Proof.
  intros op ops d. cbn [db.run]. unfold bind, ret.
  destruct (db.exec tt op d) as [e d1]. cbn [fst snd].
  now destruct (db.run tt ops d1).
Qed.

Lemma run_badState :
  forall ops d,
    db.badState (snd (db.run tt ops d)) =
    db.badState d
    || existsb db.rejectedUpdate (combine ops (fst (db.run tt ops d))).
Proof.
  induction ops as [|op ops IH]; intros d.
  - simpl. now rewrite orb_false_r.
  - rewrite run_cons. cbn [fst snd combine existsb].
    rewrite IH, exec_badState. now rewrite orb_assoc.
Qed.

Lemma run_committed :
  forall ops d, db.committed (snd (db.run tt ops d)) = db.committed d.
Proof.
  induction ops as [|op ops IH]; intros d.
  - reflexivity.
  - rewrite run_cons. cbn [snd]. now rewrite IH, exec_committed.
Qed.

Lemma Commit_result :
  forall d,
    db.Commit tt d =
    if db.badState d then (Some errorz.ErrTxBadState, d)
    else (None, db.mkDB (db.work d) (db.work d) false (db.nowFunc d)
                        (db.nowCalls d)).
Proof. reflexivity. Qed.

(** C5, as amended.  After [BeginTx] and any operations, [Commit] fails,
    with [ErrTxBadState] and persisting nothing, exactly when one of them
    was an [UpdateEmailToken] rejected with [ErrConstraintViolated];
    otherwise it succeeds and persists the changes, in particular when no
    operation failed.  Once an [UpdateEmailToken] has been rejected for an
    immutable field, [Commit] fails whatever is run in between. *)
Theorem Commit_fails_after_rejected_immutable_update :
  forall (d : db.DB) (ops : list db.Op),
    let d0 := snd (db.BeginTx tt d) in
    let results := fst (db.run tt ops d0) in
    let d1 := snd (db.run tt ops d0) in
    (existsb db.rejectedUpdate (combine ops results) = true ->
     fst (db.Commit tt d1) = Some errorz.ErrTxBadState
     /\ db.committed (snd (db.Commit tt d1)) = db.committed d)
    /\ (existsb db.rejectedUpdate (combine ops results) = false ->
        fst (db.Commit tt d1) = None
        /\ db.committed (snd (db.Commit tt d1)) = db.work d1)
    /\ (Forall (fun r => r = None) results -> fst (db.Commit tt d1) = None)
    /\ (forall t old more,
           db.findToken (EmailToken.ID t) (db.emailTokens (db.work d1))
           = Some old ->
           db.sameImmutable old t = false ->
           let d2 := snd (db.run tt more (snd (db.UpdateEmailToken tt t d1))) in
           snd (fst (db.UpdateEmailToken tt t d1))
           = Some errorz.ErrConstraintViolated
           /\ fst (db.Commit tt d2) = Some errorz.ErrTxBadState).
Proof.
  intros d ops d0 results d1.
  assert (B : db.badState d1 =
              existsb db.rejectedUpdate (combine ops results)).
  { unfold d1, results. now rewrite run_badState. }
  assert (C : db.committed d1 = db.committed d).
  { unfold d1. now rewrite run_committed. }
  assert (Yes : existsb db.rejectedUpdate (combine ops results) = false ->
                fst (db.Commit tt d1) = None
                /\ db.committed (snd (db.Commit tt d1)) = db.work d1).
  { intros E. rewrite Commit_result, B, E. now split. }
  split; [|split; [exact Yes|split]].
  - intros E. rewrite Commit_result, B, E. now split.
  - intros Hall. apply Yes.
    destruct (existsb _ _) eqn:E; [|reflexivity].
    apply existsb_exists in E. destruct E as ([op r] & HIn & Hr).
    apply in_combine_r in HIn. rewrite Forall_forall in Hall.
    rewrite (Hall r HIn) in Hr. now destruct op.
  - intros t old more Hfind Himm d2.
    assert (U : db.UpdateEmailToken tt t d1 =
                ((t, Some errorz.ErrConstraintViolated),
                 db.mkDB (db.committed d1) (db.work d1) true (db.nowFunc d1)
                         (db.nowCalls d1))).
    { unfold db.UpdateEmailToken. now rewrite Hfind, Himm. }
    split; [now rewrite U|].
    rewrite Commit_result. unfold d2. rewrite run_badState, U. reflexivity.
Qed.

(** C5 as stated fails: the case "fail, non zero ID" of
    [Test_Tx_CreateUser], which runs under [inTx].  [CreateUser] returns an
    error and the [Commit] that follows succeeds. *)
Lemma Commit_succeeds_after_failed_CreateUser :
  let d0 := snd (db.BeginTx tt (db.New sim.testNow)) in
  let user := User.mk 1 "alice@example.com" sim.hashA false 0 0 in
  snd (fst (db.CreateUser tt user d0)) = Some errorz.ErrConstraintViolated
  /\ fst (db.Commit tt (snd (db.CreateUser tt user d0))) = None.
Proof. split; reflexivity. Qed.

Lemma sameImmutable_true :
  forall old t,
    db.sameImmutable old t = true <->
    EmailToken.TokenHash t = EmailToken.TokenHash old
    /\ EmailToken.UserID t = EmailToken.UserID old
    /\ EmailToken.Email t = EmailToken.Email old
    /\ EmailToken.Purpose t = EmailToken.Purpose old.
Proof.
  intros old t. unfold db.sameImmutable.
  rewrite !andb_true_iff, !String.eqb_eq, Z.eqb_eq. intuition congruence.
Qed.

Lemma findToken_updated :
  forall t ts,
    db.findToken (EmailToken.ID t)
      (map (fun x => if EmailToken.ID x =? EmailToken.ID t
                     then db.consumedToken x t else x) ts)
    = option_map (fun x => db.consumedToken x t)
                 (db.findToken (EmailToken.ID t) ts).
Proof.
  intros t ts. unfold db.findToken.
  induction ts as [|x ts IH]; simpl; [reflexivity|].
  destruct (EmailToken.ID x =? EmailToken.ID t) eqn:E; simpl.
  - now rewrite E.
  - rewrite E. exact IH.
Qed.

Lemma exec_keeps_token :
  forall op d id old,
    db.findToken id (db.emailTokens (db.work d)) = Some old ->
    exists new,
      db.findToken id (db.emailTokens (db.work (snd (db.exec tt op d))))
      = Some new
      /\ db.sameFields new old.
Proof.
  assert (R : forall x, db.sameFields x x) by (intros x; repeat split).
  intros op d id old H.
  destruct op as [u|u|v|f|t|t|id']; unfold db.exec, bind, ret.
  - unfold db.CreateUser, db.now, db.setWork.
    destruct (negb _); [now exists old|].
    destruct (existsb _ _); now exists old.
  - unfold db.UpdateUser, db.now, db.setWork.
    destruct (db.findUser _ _); [|now exists old].
    destruct (existsb _ _); now exists old.
  - unfold db.FindUserByEmail. destruct (find _ _); now exists old.
  - now exists old.
  - unfold db.CreateEmailToken, db.now, db.setWork.
    destruct (negb _); [now exists old|].
    destruct (db.findUser _ _); [|now exists old].
    exists old. split; [|apply R]. cbn [fst snd db.work db.emailTokens].
    now apply find_app_found.
  - unfold db.UpdateEmailToken, db.setWork.
    destruct (db.findToken (EmailToken.ID t) _) as [row|] eqn:F;
      [|exists old; split; [exact H|apply R]].
    destruct (negb _); [exists old; split; [exact H|apply R]|].
    cbn [fst snd db.work db.emailTokens].
    unfold db.findToken.
    rewrite find_map_same_key.
    + unfold db.findToken in H. rewrite H. cbn [option_map].
      eexists. split; [reflexivity|].
      destruct (EmailToken.ID old =? EmailToken.ID t); [|apply R].
      repeat split.
    + intros x. now destruct (EmailToken.ID x =? EmailToken.ID t).
  - unfold db.FindEmailTokenByID.
    destruct (db.findToken id' _); exists old; split; auto.
Qed.

Lemma run_keeps_token :
  forall ops d id old,
    db.findToken id (db.emailTokens (db.work d)) = Some old ->
    exists new,
      db.findToken id (db.emailTokens (db.work (snd (db.run tt ops d))))
      = Some new
      /\ db.sameFields new old.
Proof.
  induction ops as [|op ops IH]; intros d id old H.
  - exists old. split; [exact H|repeat split].
  - rewrite run_cons. cbn [snd].
    destruct (exec_keeps_token op d id old H) as (mid & Hm & Sm).
    destruct (IH _ id mid Hm) as (new & Hn & Sn).
    exists new. split; [exact Hn|].
    unfold db.sameFields in *. intuition congruence.
Qed.

(** C6.  For a token that the transaction sees under its id: an update
    that differs from the row in [tokenHash], [userId], [email] or [purpose]
    fails with [ErrConstraintViolated] and changes no row; an update that
    agrees on the four succeeds and stores its [consumedAt], the rest of
    the row staying; and whatever operations are run, the token found under
    that id keeps the four fields. *)
Theorem UpdateEmailToken_immutable_fields :
  forall (d : db.DB) (t old : EmailToken.t),
    db.findToken (EmailToken.ID t) (db.emailTokens (db.work d)) = Some old ->
    (EmailToken.TokenHash t <> EmailToken.TokenHash old
     \/ EmailToken.UserID t <> EmailToken.UserID old
     \/ EmailToken.Email t <> EmailToken.Email old
     \/ EmailToken.Purpose t <> EmailToken.Purpose old ->
     exists e,
       snd (fst (db.UpdateEmailToken tt t d)) = Some e
       /\ errors.Is e errorz.ErrConstraintViolated = true
       /\ db.work (snd (db.UpdateEmailToken tt t d)) = db.work d)
    /\ (EmailToken.TokenHash t = EmailToken.TokenHash old ->
        EmailToken.UserID t = EmailToken.UserID old ->
        EmailToken.Email t = EmailToken.Email old ->
        EmailToken.Purpose t = EmailToken.Purpose old ->
        snd (fst (db.UpdateEmailToken tt t d)) = None
        /\ fst (db.FindEmailTokenByID tt (EmailToken.ID t)
                  (snd (db.UpdateEmailToken tt t d)))
           = Ok (EmailToken.mk (EmailToken.ID old) (EmailToken.TokenHash old)
                               (EmailToken.UserID old) (EmailToken.Email old)
                               (EmailToken.Purpose old)
                               (EmailToken.CreatedAt old)
                               (EmailToken.ConsumedAt t)))
    /\ (forall ops,
        exists new,
          fst (db.FindEmailTokenByID tt (EmailToken.ID t)
                 (snd (db.run tt ops d))) = Ok new
          /\ EmailToken.TokenHash new = EmailToken.TokenHash old
          /\ EmailToken.UserID new = EmailToken.UserID old
          /\ EmailToken.Email new = EmailToken.Email old
          /\ EmailToken.Purpose new = EmailToken.Purpose old).
Proof.
  intros d t old Hfind. split; [|split].
  - intros Hdiff.
    assert (Himm : db.sameImmutable old t = false).
    { destruct (db.sameImmutable old t) eqn:E; [|reflexivity].
      apply sameImmutable_true in E. tauto. }
    unfold db.UpdateEmailToken. rewrite Hfind, Himm. cbn [negb fst snd db.work].
    exists errorz.ErrConstraintViolated. repeat split.
  - intros H1 H2 H3 H4.
    assert (Himm : db.sameImmutable old t = true).
    { apply sameImmutable_true. tauto. }
    unfold db.UpdateEmailToken. rewrite Hfind, Himm. cbn [negb fst snd].
    split; [reflexivity|].
    unfold db.FindEmailTokenByID, db.setWork. cbn [db.work db.emailTokens].
    rewrite findToken_updated, Hfind. reflexivity.
  - intros ops.
    destruct (run_keeps_token ops d (EmailToken.ID t) old Hfind)
      as (new & Hn & Sn).
    exists new. unfold db.FindEmailTokenByID. rewrite Hn.
    unfold db.sameFields in Sn. cbn [fst]. tauto.
Qed.

Lemma findUser_absent :
  forall id us,
    (forall x, In x us -> User.ID x <> id) -> db.findUser id us = None.
Proof.
  intros id us H. apply find_absent. intros x Hx. apply Z.eqb_neq. now apply H.
Qed.

Lemma findToken_absent :
  forall id ts,
    (forall x, In x ts -> EmailToken.ID x <> id) -> db.findToken id ts = None.
Proof.
  intros id ts H. apply find_absent. intros x Hx. apply Z.eqb_neq. now apply H.
Qed.

(** C7.  [CreateUser] and [CreateEmailToken] reject a record with a
    non-zero id; [CreateUser] rejects an email that a user holds, whatever
    that user's activation state; [CreateEmailToken] rejects a [userId]
    that no user has; all with [ErrConstraintViolated] and no change.  On
    success the record comes back with a fresh positive id and the time of
    the clock in its timestamps, its other fields as passed, and is the new
    last row. *)
Theorem Create_rejects_and_assigns :
  forall (d : db.DB),
    (forall u, User.ID u <> 0 ->
       db.CreateUser tt u d = ((u, Some errorz.ErrConstraintViolated), d))
    /\ (forall t, EmailToken.ID t <> 0 ->
       db.CreateEmailToken tt t d = ((t, Some errorz.ErrConstraintViolated), d))
    /\ (forall u other,
       In other (db.users (db.work d)) ->
       User.Email other = User.Email u ->
       db.CreateUser tt u d = ((u, Some errorz.ErrConstraintViolated), d))
    /\ (forall t,
       (forall x, In x (db.users (db.work d)) -> User.ID x <> EmailToken.UserID t) ->
       db.CreateEmailToken tt t d = ((t, Some errorz.ErrConstraintViolated), d))
    /\ errors.Is errorz.ErrConstraintViolated errorz.ErrConstraintViolated = true
    /\ (forall u u' d',
       db.CreateUser tt u d = ((u', None), d') ->
       let now := db.nowFunc d (db.nowCalls d) in
       u' = User.mk (User.ID u') (User.Email u) (User.PasswordHash u)
                    (User.IsActive u) now now
       /\ 0 < User.ID u'
       /\ (forall x, In x (db.users (db.work d)) -> User.ID x <> User.ID u')
       /\ db.users (db.work d') = (db.users (db.work d) ++ [u'])%list
       /\ db.emailTokens (db.work d') = db.emailTokens (db.work d))
    /\ (forall t t' d',
       db.CreateEmailToken tt t d = ((t', None), d') ->
       let now := db.nowFunc d (db.nowCalls d) in
       t' = EmailToken.mk (EmailToken.ID t') (EmailToken.TokenHash t)
                          (EmailToken.UserID t) (EmailToken.Email t)
                          (EmailToken.Purpose t) now (EmailToken.ConsumedAt t)
       /\ 0 < EmailToken.ID t'
       /\ (forall x, In x (db.emailTokens (db.work d)) ->
                     EmailToken.ID x <> EmailToken.ID t')
       /\ db.emailTokens (db.work d') = (db.emailTokens (db.work d) ++ [t'])%list
       /\ db.users (db.work d') = db.users (db.work d)).
Proof.
  intros d. repeat match goal with |- _ /\ _ => split end.
  - intros u Hid. unfold db.CreateUser.
    apply Z.eqb_neq in Hid. now rewrite Hid.
  - intros t Hid. unfold db.CreateEmailToken.
    apply Z.eqb_neq in Hid. now rewrite Hid.
  - intros u other HIn Hemail. unfold db.CreateUser.
    destruct (negb (User.ID u =? 0)); [reflexivity|].
    assert (E : existsb (fun x => String.eqb (User.Email x) (User.Email u))
                        (db.users (db.work d)) = true).
    { apply existsb_exists. exists other. split; [exact HIn|].
      now apply String.eqb_eq. }
    now rewrite E.
  - intros t Hnone. unfold db.CreateEmailToken.
    destruct (negb (EmailToken.ID t =? 0)); [reflexivity|].
    now rewrite (findUser_absent _ _ Hnone).
  - reflexivity.
  - intros u u' d'. unfold db.CreateUser, db.now, db.setWork.
    destruct (negb (User.ID u =? 0)); [discriminate|].
    destruct (existsb _ _); [discriminate|].
    intros [= <- <-]. cbn [User.ID db.work db.users db.emailTokens].
    repeat split.
    + apply nextID_positive.
    + intros x Hx E.
      pose proof (nextID_above (map User.ID (db.users (db.work d)))
                    (User.ID x) (in_map User.ID _ _ Hx)). lia.
  - intros t t' d'. unfold db.CreateEmailToken, db.now, db.setWork.
    destruct (negb (EmailToken.ID t =? 0)); [discriminate|].
    destruct (db.findUser _ _); [|discriminate].
    intros [= <- <-]. cbn [EmailToken.ID db.work db.users db.emailTokens].
    repeat split.
    + apply nextID_positive.
    + intros x Hx E.
      pose proof (nextID_above (map EmailToken.ID (db.emailTokens (db.work d)))
                    (EmailToken.ID x) (in_map EmailToken.ID _ _ Hx)). lia.
Qed.

Lemma findUser_updated :
  forall u now us,
    db.findUser (User.ID u)
      (map (fun x => if User.ID x =? User.ID u
                     then db.updatedUser x u now else x) us)
    = option_map (fun x => db.updatedUser x u now)
                 (db.findUser (User.ID u) us).
Proof.
  intros u now us. unfold db.findUser.
  induction us as [|x us IH]; simpl; [reflexivity|].
  destruct (User.ID x =? User.ID u) eqn:E; simpl.
  - now rewrite E.
  - rewrite E. exact IH.
Qed.

(** C8.  [UpdateUser] and [UpdateEmailToken] fail with [ErrNotFound],
    changing nothing, when no row has the id.  A successful [UpdateUser]
    sets [updatedAt] to the time of the clock in the record and in the row;
    the row keeps its id and [createdAt] and takes email, password hash and
    active flag from the record; the other users, the order of the rows and
    the tokens stay as they were. *)
Theorem Update_not_found_and_timestamps :
  forall (d : db.DB),
    (forall u,
       (forall x, In x (db.users (db.work d)) -> User.ID x <> User.ID u) ->
       db.UpdateUser tt u d = ((u, Some errorz.ErrNotFound), d))
    /\ (forall t,
       (forall x, In x (db.emailTokens (db.work d)) ->
                  EmailToken.ID x <> EmailToken.ID t) ->
       db.UpdateEmailToken tt t d = ((t, Some errorz.ErrNotFound), d))
    /\ errors.Is errorz.ErrNotFound errorz.ErrNotFound = true
    /\ (forall u u' d',
       db.UpdateUser tt u d = ((u', None), d') ->
       let now := db.nowFunc d (db.nowCalls d) in
       exists old,
         db.findUser (User.ID u) (db.users (db.work d)) = Some old
         /\ u' = User.mk (User.ID u) (User.Email u) (User.PasswordHash u)
                         (User.IsActive u) (User.CreatedAt u) now
         /\ db.findUser (User.ID u) (db.users (db.work d'))
            = Some (User.mk (User.ID old) (User.Email u) (User.PasswordHash u)
                            (User.IsActive u) (User.CreatedAt old) now)
         /\ (forall x, In x (db.users (db.work d)) ->
                       User.ID x <> User.ID u ->
                       In x (db.users (db.work d')))
         /\ map User.ID (db.users (db.work d'))
            = map User.ID (db.users (db.work d))
         /\ map User.CreatedAt (db.users (db.work d'))
            = map User.CreatedAt (db.users (db.work d))
         /\ db.emailTokens (db.work d') = db.emailTokens (db.work d)).
Proof.
  intros d. repeat match goal with |- _ /\ _ => split end.
  - intros u Hnone. unfold db.UpdateUser.
    now rewrite (findUser_absent _ _ Hnone).
  - intros t Hnone. unfold db.UpdateEmailToken.
    now rewrite (findToken_absent _ _ Hnone).
  - reflexivity.
  - intros u u' d'. unfold db.UpdateUser, db.now, db.setWork.
    destruct (db.findUser (User.ID u) (db.users (db.work d))) as [old|] eqn:F;
      [|discriminate].
    destruct (existsb _ _); [discriminate|].
    intros [= <- <-]. cbn [db.work db.users db.emailTokens].
    exists old. repeat match goal with |- _ /\ _ => split end;
      try reflexivity.
    + rewrite findUser_updated, F. reflexivity.
    + intros x Hx Hid. apply in_map_iff. exists x. split; [|exact Hx].
      apply Z.eqb_neq in Hid. now rewrite Hid.
    + rewrite map_map. apply map_ext. intros x.
      now destruct (User.ID x =? User.ID u).
    + rewrite map_map. apply map_ext. intros x.
      now destruct (User.ID x =? User.ID u).
Qed.

(** ** The theorems at the inputs of the store tests *)

(** "ok, combine filters" of [Test_Tx_FindUser]. *)
Lemma FindUsers_and_of_nonempty_dimensions_witness :
  exists us,
    db.FindUsers tt
      (UserFilter.mk (Some [1; 3]) (Some ["alice@example.com"]) (Some false))
      sim.threeUsers
    = (Ok us, sim.threeUsers)
    /\ Subseq us (db.users (db.work sim.threeUsers))
    /\ fst (db.FindUsers tt (UserFilter.mk (Some []) None None) sim.threeUsers)
       = Ok (db.users (db.work sim.threeUsers)).
Proof.
  destruct (FindUsers_and_of_nonempty_dimensions
              (UserFilter.mk (Some [1; 3]) (Some ["alice@example.com"])
                             (Some false))
              sim.threeUsers) as (us & Hret & _ & Hsub & _).
  exists us. split; [exact Hret|]. split; [exact Hsub|].
  destruct (FindUsers_and_of_nonempty_dimensions
              (UserFilter.mk (Some []) None None) sim.threeUsers)
    as (all & Hall & _ & _ & _ & Hempty).
  rewrite Hall. cbn [fst]. f_equal.
  apply Hempty; reflexivity.
Defined.

(** "fail, immutable field Purpose" of [Test_Tx_UpdateEmailToken], and
    "ok, create user" of [Test_Tx_CreateUser]. *)
Lemma Commit_fails_after_rejected_immutable_update_witness :
  let changed := EmailToken.mk 1 sim.hashB 1 "alice@example.com" "other"
                               (sim.testNow 1) None in
  let ops := sim.immutableCase changed in
  fst (db.Commit tt (snd (db.run tt ops sim.begun)))
  = Some errorz.ErrTxBadState
  /\ fst (db.Commit tt (snd (db.run tt [db.OpCreateUser sim.newUser] sim.begun)))
     = None.
Proof.
  intros changed ops. split.
  - destruct (Commit_fails_after_rejected_immutable_update
                (db.New sim.testNow) ops) as (H & _).
    destruct H as [Hret _]; [vm_compute; reflexivity|exact Hret].
  - destruct (Commit_fails_after_rejected_immutable_update
                (db.New sim.testNow) [db.OpCreateUser sim.newUser])
      as (_ & _ & H & _).
    apply H. vm_compute. repeat constructor.
Defined.

(** "ok, update email token" and "fail, immutable field Email" of
    [Test_Tx_UpdateEmailToken]. *)
Lemma UpdateEmailToken_immutable_fields_witness :
  let stored := EmailToken.mk 1 sim.hashB 1 "alice@example.com"
                              TokenPurposeActivate (sim.testNow 1) None in
  let consumed := EmailToken.mk 1 sim.hashB 1 "alice@example.com"
                                TokenPurposeActivate (sim.testNow 1)
                                (Some (sim.testNow 9)) in
  let moved := EmailToken.mk 1 sim.hashB 1 "jacob@example.com"
                             TokenPurposeActivate (sim.testNow 1) None in
  snd (fst (db.UpdateEmailToken tt consumed sim.userAndToken)) = None
  /\ fst (db.FindEmailTokenByID tt 1
            (snd (db.UpdateEmailToken tt consumed sim.userAndToken)))
     = Ok consumed
  /\ exists e,
       snd (fst (db.UpdateEmailToken tt moved sim.userAndToken)) = Some e
       /\ errors.Is e errorz.ErrConstraintViolated = true.
Proof.
  intros stored consumed moved.
  destruct (UpdateEmailToken_immutable_fields sim.userAndToken consumed stored
              eq_refl) as (_ & Hok & _).
  destruct (Hok eq_refl eq_refl eq_refl eq_refl) as [Hret Hfound].
  split; [exact Hret|]. split; [exact Hfound|].
  destruct (UpdateEmailToken_immutable_fields sim.userAndToken moved stored
              eq_refl) as (Hbad & _).
  destruct Hbad as (e & He & HIs & _).
  - right. right. left. discriminate.
  - exists e. split; assumption.
Defined.

(** "fail, non zero ID" and "fail, email constraint violated" of
    [Test_Tx_CreateUser], "fail, user foreign key does not exist" of
    [Test_Tx_CreateEmailToken]. *)
Lemma Create_rejects_and_assigns_witness :
  let withID := User.mk 1 "alice@example.com" sim.hashA false 0 0 in
  let orphan := EmailToken.mk 0 sim.hashB 101 "alice@example.com"
                              TokenPurposeActivate 0 None in
  let alice := User.mk 1 "alice@example.com" sim.hashA false
                       (sim.testNow 0) (sim.testNow 0) in
  snd (fst (db.CreateUser tt withID sim.begun))
  = Some errorz.ErrConstraintViolated
  /\ snd (fst (db.CreateUser tt sim.newUser sim.userAndToken))
     = Some errorz.ErrConstraintViolated
  /\ snd (fst (db.CreateEmailToken tt orphan sim.userAndToken))
     = Some errorz.ErrConstraintViolated
  /\ 0 < User.ID alice.
Proof.
  intros withID orphan alice.
  destruct (Create_rejects_and_assigns sim.begun) as (Hid & _ & _ & _ & _ & Hok & _).
  destruct (Create_rejects_and_assigns sim.userAndToken)
    as (_ & _ & Hdup & Hfk & _).
  split; [|split; [|split]].
  - rewrite (Hid withID); [reflexivity|discriminate].
  - rewrite (Hdup sim.newUser alice); [reflexivity|now left|reflexivity].
  - rewrite (Hfk orphan); [reflexivity|].
    intros x [<-|[]]. discriminate.
  - pose (d' := ltac:(let v := eval vm_compute in
                        (snd (db.CreateUser tt sim.newUser sim.begun)) in
                      exact v)).
    destruct (Hok sim.newUser alice d') as (_ & Hpos & _).
    + vm_compute. reflexivity.
    + exact Hpos.
Defined.

(** "fail, not found" and "ok, update user" of [Test_Tx_UpdateUser]. *)
Lemma Update_not_found_and_timestamps_witness :
  let absent := User.mk 2 "alice@example.com" sim.hashA false 0 0 in
  let changed := User.mk 1 "jacob@example.com" sim.hashB true
                         (sim.testNow 0) (sim.testNow 0) in
  let want := User.mk 1 "jacob@example.com" sim.hashB true
                      (sim.testNow 0) (sim.testNow 1) in
  snd (fst (db.UpdateUser tt absent sim.userAndToken))
  = Some errorz.ErrNotFound
  /\ db.findUser 1
       (db.users (db.work (snd (db.UpdateUser tt changed
                                  (snd (db.CreateUser tt sim.newUser sim.begun))))))
     = Some want.
Proof.
  intros absent changed want. split.
  - destruct (Update_not_found_and_timestamps sim.userAndToken) as (Hnone & _).
    rewrite (Hnone absent); [reflexivity|].
    intros x [<-|[]]. discriminate.
  - pose (d := ltac:(let v := eval vm_compute in
                       (snd (db.CreateUser tt sim.newUser sim.begun)) in
                     exact v)).
    pose (d' := ltac:(let v := eval vm_compute in
                        (snd (db.UpdateUser tt changed d)) in exact v)).
    destruct (Update_not_found_and_timestamps d) as (_ & _ & _ & Hok).
    destruct (Hok changed want d') as (old & Hold & _ & Hrow & _).
    + vm_compute. reflexivity.
    + change (snd (db.CreateUser tt sim.newUser sim.begun)) with d.
      change (snd (db.UpdateUser tt changed d)) with d'.
      injection Hold as <-. exact Hrow.
Defined.

(** ** The cases of the store tests, run on the model *)

Example Test_Tx_FindUser_table :
  db.users (db.work sim.threeUsers) = sim.users3
  /\ sim.found (UserFilter.mk (Some []) (Some []) None) = Ok sim.users3
  /\ sim.found (UserFilter.mk None None (Some true)) = Ok (firstn 1 (skipn 1 sim.users3))
  /\ sim.found (UserFilter.mk (Some [2]) None None) = Ok (firstn 1 (skipn 1 sim.users3))
  /\ sim.found (UserFilter.mk (Some [1; 3]) None None)
     = Ok (firstn 1 sim.users3 ++ skipn 2 sim.users3)%list
  /\ sim.found (UserFilter.mk None (Some ["jacob@example.com"]) None)
     = Ok (firstn 1 (skipn 1 sim.users3))
  /\ sim.found (UserFilter.mk None (Some ["jacob@example.com"; "eva@example.com"])
                          None)
     = Ok (skipn 1 sim.users3)
  /\ sim.found (UserFilter.mk (Some [1; 3]) (Some ["alice@example.com"])
                          (Some false))
     = Ok (firstn 1 sim.users3)
  /\ sim.found (UserFilter.mk (Some [4]) None None) = Ok [].
Proof. repeat split. Qed.

Example Test_Tx_CreateUser_cases :
  db.CreateUser tt sim.newUser sim.begun
  = ((User.mk 1 "alice@example.com" sim.hashA false (sim.testNow 0)
              (sim.testNow 0), None),
     snd (db.CreateUser tt sim.newUser sim.begun))
  /\ sim.inTest [db.OpCreateUser sim.newUser] = ([None], None)
  /\ sim.inTest [db.OpCreateUser sim.newUser; db.OpCreateUser sim.newUser]
     = ([None; Some errorz.ErrConstraintViolated], None)
  /\ sim.inTest [db.OpCreateUser (User.mk 1 "alice@example.com" sim.hashA false 0 0)]
     = ([Some errorz.ErrConstraintViolated], None).
Proof. repeat split. Qed.

Example Test_Tx_UpdateUser_cases :
  let changed := User.mk 1 "jacob@example.com" sim.hashB true (sim.testNow 0)
                         (sim.testNow 0) in
  let want := User.mk 1 "jacob@example.com" sim.hashB true (sim.testNow 0)
                      (sim.testNow 1) in
  let d := snd (db.CreateUser tt sim.newUser sim.begun) in
  fst (db.UpdateUser tt changed d) = (want, None)
  /\ fst (db.FindUsers tt (UserFilter.mk (Some [1]) None None)
            (snd (db.UpdateUser tt changed d))) = Ok [want]
  /\ sim.inTest [db.OpCreateUser sim.newUser; db.OpUpdateUser changed]
     = ([None; None], None)
  /\ sim.inTest [db.OpCreateUser sim.newUser;
             db.OpUpdateUser (User.mk 2 "alice@example.com" sim.hashA false 0 0)]
     = ([None; Some errorz.ErrNotFound], None)
  /\ sim.inTest [db.OpCreateUser sim.newUser; db.OpCreateUser sim.user2;
             db.OpUpdateUser (User.mk 1 "jacob@example.com" sim.hashA false
                                      (sim.testNow 0) (sim.testNow 0))]
     = ([None; None; Some errorz.ErrConstraintViolated], None).
Proof. repeat split. Qed.

Example Test_Tx_CreateEmailToken_cases :
  let want := EmailToken.mk 1 sim.hashB 1 "alice@example.com"
                            TokenPurposeActivate (sim.testNow 1) None in
  let d := snd (db.CreateUser tt sim.newUser sim.begun) in
  fst (db.CreateEmailToken tt sim.newEmailToken d) = (want, None)
  /\ fst (db.FindEmailTokenByID tt 1
            (snd (db.CreateEmailToken tt sim.newEmailToken d))) = Ok want
  /\ sim.inTest [db.OpCreateUser sim.newUser;
             db.OpCreateEmailToken
               (EmailToken.mk 0 sim.hashB 101 "alice@example.com"
                              TokenPurposeActivate 0 None)]
     = ([None; Some errorz.ErrConstraintViolated], None)
  /\ sim.inTest [db.OpCreateUser sim.newUser;
             db.OpCreateEmailToken
               (EmailToken.mk 1 sim.hashB 1 "alice@example.com"
                              TokenPurposeActivate 0 None)]
     = ([None; Some errorz.ErrConstraintViolated], None).
Proof. repeat split. Qed.

Example Test_Tx_UpdateEmailToken_cases :
  let token := EmailToken.mk 1 sim.hashB 1 "alice@example.com"
                             TokenPurposeActivate (sim.testNow 1) in
  let rejected := ([None; None; None; Some errorz.ErrConstraintViolated],
                   Some errorz.ErrTxBadState) in
  sim.inTest [db.OpCreateUser sim.newUser; db.OpCreateEmailToken sim.newEmailToken;
          db.OpUpdateEmailToken (token (Some (sim.testNow 9)))]
  = ([None; None; None], None)
  /\ fst (db.FindEmailTokenByID tt 1
            (snd (db.UpdateEmailToken tt (token (Some (sim.testNow 9)))
                    sim.userAndToken)))
     = Ok (token (Some (sim.testNow 9)))
  /\ sim.inTest (sim.immutableCase
               (EmailToken.mk 1 sim.hashA 1 "alice@example.com"
                              TokenPurposeActivate (sim.testNow 1) None))
     = rejected
  /\ sim.inTest (sim.immutableCase
               (EmailToken.mk 1 sim.hashB 2 "alice@example.com"
                              TokenPurposeActivate (sim.testNow 1) None))
     = rejected
  /\ sim.inTest (sim.immutableCase
               (EmailToken.mk 1 sim.hashB 1 "jacob@example.com"
                              TokenPurposeActivate (sim.testNow 1) None))
     = rejected
  /\ sim.inTest (sim.immutableCase
               (EmailToken.mk 1 sim.hashB 1 "alice@example.com" "other"
                              (sim.testNow 1) None))
     = rejected
  /\ sim.inTest [db.OpCreateUser sim.newUser; db.OpCreateEmailToken sim.newEmailToken;
             db.OpUpdateEmailToken
               (EmailToken.mk 2 sim.hashB 1 "alice@example.com"
                              TokenPurposeActivate (sim.testNow 1) None)]
     = ([None; None; Some errorz.ErrNotFound], None)
  /\ fst (db.FindEmailTokenByID tt 2 sim.begun) = Err errorz.ErrNotFound.
Proof. repeat split. Qed.

(** ** The service run end to end *)

Example register_twice :
  sim.handled (world sim.registerTwice) = [ErrDuplicateAccount]
  /\ sim.outbox (world sim.registerTwice)
     = [sim.mkMail "account-activation" "alice@example.com"
                   (mkActivationData 1 "t1")]
  /\ map User.Email
         (db.users (db.committed (sim.database (world sim.registerTwice))))
     = ["alice@example.com"]
  /\ map EmailToken.TokenHash
         (db.emailTokens (db.committed (sim.database (world sim.registerTwice))))
     = [sim.hashOf "t1"]
  /\ wg sim.registerTwice = 0
  /\ goroutines sim.registerTwice = [].
Proof. vm_compute. repeat split. Qed.

(** ** The service over any interleaving *)

Section ServiceRuns.
Context {W Ctx T : Type} {store : Store W Ctx T} {deps : Deps W Ctx}.
Variable workTimeout : Duration.



(** What one run of the goroutine of [RegisterAccount] adds. *)
Lemma RegisterAccount_goroutine_run :
  forall (ctx : Ctx) (user : User.t) (s : State W Ctx T),
    exists new r,
      ActivationPath user new r
      /\ calls (snd (RegisterAccount_goroutine workTimeout ctx user s)) =
         (calls s ++ new ++
          match r with
          | Some err => [EvErrHandler T err]
          | None => []
          end)%list
      /\ wg (snd (RegisterAccount_goroutine workTimeout ctx user s)) = wg s - 1
      /\ goroutines (snd (RegisterAccount_goroutine workTimeout ctx user s))
         = goroutines s.
Proof.
  intros ctx user s.
  destruct (startActivation_path (WithTimeout ctx workTimeout) user s)
    as (new & Hc & HP & Hw & Hg).
  unfold RegisterAccount_goroutine, bind, ret, call, wg_Add.
  destruct (startActivation (WithTimeout ctx workTimeout) user s)
    as [[err|] s1]; cbn [fst snd] in *; exists new.
  - exists (Some err). destruct (errHandler err (world s1)) as [[] w].
    cbn [fst snd calls wg goroutines]. rewrite Hc, Hw, Hg, <- app_assoc.
    split; [exact HP|]. split; [reflexivity|]. split; [lia|reflexivity].
  - exists None. cbn [fst snd calls wg goroutines].
    rewrite Hc, Hw, Hg, app_nil_r.
    split; [exact HP|]. split; [reflexivity|]. split; [lia|reflexivity].
Qed.

(** What one call of [RegisterAccount] adds. *)
Lemma RegisterAccount_run :
  forall (ctx : Ctx) (c : Credentials.t) (s : State W Ctx T),
    let p := Credentials.Password c in
    exists r,
      calls (snd (RegisterAccount ctx c s)) =
      (calls s ++ [EvPasswordHash T p r])%list
      /\ match r with
         | Ok h =>
             goroutines (snd (RegisterAccount ctx c s)) =
             (goroutines s ++ [(ctx, inactiveUser (Credentials.Email c) h)])%list
             /\ wg (snd (RegisterAccount ctx c s)) = wg s + 1
         | Err _ =>
             goroutines (snd (RegisterAccount ctx c s)) = goroutines s
             /\ wg (snd (RegisterAccount ctx c s)) = wg s
         end.
Proof.
  intros ctx c s p. unfold RegisterAccount, call, bind, ret, wg_Add, go.
  fold p. destruct (Password_Hash p (world s)) as [[h|e] w];
    cbn [fst snd calls wg goroutines]; eexists; split; try reflexivity;
    split; reflexivity.
Qed.


Lemma removed_In :
  forall (A : Type) (l : list A) (n : nat) (y : A),
    In y (firstn n l ++ skipn (S n) l) -> In y l.
Proof.
  intros A l n y H. apply in_app_or in H. destruct H as [H|H].
  - rewrite <- (firstn_skipn n l). apply in_or_app. left. exact H.
  - rewrite <- (firstn_skipn (S n) l). apply in_or_app. right. exact H.
Qed.

(** What one step of the scheduler adds. *)
Lemma schedule_run :
  forall (n : nat) (s : State W Ctx T),
    (nth_error (goroutines s) n = None /\ snd (schedule workTimeout n s) = s)
    \/ (exists ctx user new r,
          nth_error (goroutines s) n = Some (ctx, user)
          /\ ActivationPath user new r
          /\ calls (snd (schedule workTimeout n s)) =
             (calls s ++ new ++
              match r with
              | Some err => [EvErrHandler T err]
              | None => []
              end)%list
          /\ wg (snd (schedule workTimeout n s)) = wg s - 1
          /\ goroutines (snd (schedule workTimeout n s)) =
             (firstn n (goroutines s) ++ skipn (S n) (goroutines s))%list).
Proof.
  intros n s. unfold schedule.
  destruct (nth_error (goroutines s) n) as [[ctx user]|] eqn:E.
  - right. cbn [snd].
    destruct (RegisterAccount_goroutine_run ctx user
                (mkState (world s) (calls s) (wg s)
                   (firstn n (goroutines s) ++ skipn (S n) (goroutines s))))
      as (new & r & HP & Hc & Hw & Hg).
    exists ctx, user, new, r. cbn [calls wg goroutines] in *. auto.
  - left. auto.
Qed.

Lemma acts_cons :
  forall (a : Action Ctx) (l : list (Action Ctx)) (s : State W Ctx T),
    acts workTimeout (a :: l) s = acts workTimeout l (act workTimeout a s).
Proof. reflexivity. Qed.


Lemma fresh_more :
  forall (evs more : list (Event T)) (u : User.t),
    fresh evs u -> fresh (evs ++ more) u.
Proof.
  intros evs more u (H1 & H2 & H3 & H4 & p & Hp).
  repeat split; try assumption. exists p. apply in_or_app. now left.
Qed.

Lemma linked_more :
  forall (evs more : list (Event T)) (tx : T) (t : EmailToken.t),
    linked evs tx t -> linked (evs ++ more) tx t.
Proof.
  intros evs more tx t (H1 & H2 & H3 & u & u' & h & tok & Hu & Hh & H4).
  repeat split; try assumption.
  exists u, u', h, tok. repeat split; try tauto; apply in_or_app; now left.
Qed.

(** What the calls of one way through [startActivation] create. *)
Lemma ActivationPath_creates :
  forall (user : User.t) (new : list (Event T)) (r : option error),
    ActivationPath user new r ->
    (forall tx u res, In (EvCreateUser tx u res) new -> u = user)
    /\ (forall tx t res, In (EvCreateEmailToken tx t res) new -> linked new tx t).
Proof.
  intros user new r HP. split.
  - intros tx u res HIn.
    inversion HP; subst; cbn [In] in HIn; in_cases HIn;
      now injection HIn as _ -> _.
  - intros tx t res HIn.
    inversion HP; subst; cbn [In] in HIn; in_cases HIn;
      injection HIn as <- <- _;
      (repeat split;
       exists user, user', h, tok; cbn [In EmailToken.UserID EmailToken.Email
                                        EmailToken.TokenHash]; tauto).
Qed.

Lemma acts_created :
  forall (l : list (Action Ctx)) (s : State W Ctx T),
    (forall ctx u, In (ctx, u) (goroutines s) -> fresh (calls s) u) ->
    (forall tx u r, In (EvCreateUser tx u r) (calls s) -> fresh (calls s) u) ->
    (forall tx t r, In (EvCreateEmailToken tx t r) (calls s) ->
                    linked (calls s) tx t) ->
    let s' := acts workTimeout l s in
    (forall tx u r, In (EvCreateUser tx u r) (calls s') -> fresh (calls s') u)
    /\ (forall tx t r, In (EvCreateEmailToken tx t r) (calls s') ->
                       linked (calls s') tx t).
Proof.
  induction l as [|a l IH]; intros s Hg Hu Ht; [now split|].
  cbv zeta. rewrite acts_cons. apply IH; clear IH.
  - destruct a as [ctx c|n]; cbn [act].
    + destruct (RegisterAccount_run ctx c s) as ([h|e] & Hc & Hgo & _);
        rewrite Hc, Hgo; intros ctx' u HIn.
      * apply in_app_or in HIn. destruct HIn as [HIn|[[= <- <-]|[]]].
        -- apply fresh_more. now apply (Hg ctx').
        -- repeat split. exists (Credentials.Password c).
           apply in_or_app. right. now left.
      * apply fresh_more. now apply (Hg ctx').
    + destruct (schedule_run n s)
        as [[_ ->]|(ctx & user & new & r & _ & _ & Hc & _ & Hgo)];
        [exact Hg|].
      rewrite Hc, Hgo. intros ctx' u HIn. apply fresh_more.
      apply (Hg ctx'). now apply removed_In in HIn.
  - destruct a as [ctx c|n]; cbn [act].
    + destruct (RegisterAccount_run ctx c s) as (r & Hc & _).
      rewrite Hc. intros tx u res HIn.
      apply in_app_or in HIn. destruct HIn as [HIn|[HIn|[]]]; [|discriminate].
      apply fresh_more. now apply (Hu tx u res).
    + destruct (schedule_run n s)
        as [[_ ->]|(ctx & user & new & r & E & HP & Hc & _)];
        [exact Hu|].
      rewrite Hc. intros tx u res HIn.
      apply in_app_or in HIn. destruct HIn as [HIn|HIn].
      * apply fresh_more. now apply (Hu tx u res).
      * apply in_app_or in HIn. destruct HIn as [HIn|HIn].
        -- destruct (ActivationPath_creates _ _ _ HP) as [Hsame _].
           rewrite (Hsame tx u res HIn). apply fresh_more.
           apply (Hg ctx). now apply nth_error_In in E.
        -- destruct r; cbn [In] in HIn; in_cases HIn.
  - destruct a as [ctx c|n]; cbn [act].
    + destruct (RegisterAccount_run ctx c s) as (r & Hc & _).
      rewrite Hc. intros tx t res HIn.
      apply in_app_or in HIn. destruct HIn as [HIn|[HIn|[]]]; [|discriminate].
      apply linked_more. now apply (Ht tx t res).
    + destruct (schedule_run n s)
        as [[_ ->]|(ctx & user & new & r & E & HP & Hc & _)];
        [exact Ht|].
      rewrite Hc. intros tx t res HIn.
      apply in_app_or in HIn. destruct HIn as [HIn|HIn].
      * apply linked_more. now apply (Ht tx t res).
      * apply in_app_or in HIn. destruct HIn as [HIn|HIn].
        -- destruct (ActivationPath_creates _ _ _ HP) as [_ Hlink].
           destruct (Hlink tx t res HIn)
             as (H1 & H2 & H3 & u & u' & h & tok & Hcu & Hth & H4).
           repeat split; try assumption. exists u, u', h, tok.
           repeat split; try tauto;
             apply in_or_app; right; apply in_or_app; now left.
        -- destruct r; cbn [In] in HIn; in_cases HIn.
Qed.

End ServiceRuns.



(** X3.  Every record the service hands to [CreateUser], in any
    interleaving, is inactive, has a zero id and zero timestamps, and its
    password hash is one that [Password.Hash] returned. *)
Theorem registered_users_start_inactive :
  forall (W Ctx T : Type) (store : Store W Ctx T) (deps : Deps W Ctx)
         (workTimeout : Duration) (l : list (Action Ctx)) (w : W) (tx : T)
         (u : User.t) (r : User.t * option error),
    let evs := calls (acts workTimeout l (NewService w)) in
    In (EvCreateUser tx u r) evs ->
    User.ID u = 0 /\ User.IsActive u = false
    /\ User.CreatedAt u = 0 /\ User.UpdatedAt u = 0
    /\ exists p, In (EvPasswordHash T p (Ok (User.PasswordHash u))) evs.
Proof.
  intros W Ctx T store deps workTimeout l w tx u r evs HIn.
  destruct (acts_created workTimeout l (NewService w)) as [Hu _];
    try (cbn; intros; contradiction).
  exact (Hu tx u r HIn).
Qed.

Lemma registered_users_start_inactive_witness :
  let u := inactiveUser "alice@example.com" (sim.hashOf "correct horse") in
  User.ID u = 0 /\ User.IsActive u = false.
Proof.
  intros u.
  destruct (registered_users_start_inactive
              sim.World unit db.Tx sim.store sim.deps 30 sim.twice
              (sim.world0 ["t1"; "t2"] false) tt u
              (User.mk 1 "alice@example.com" (sim.hashOf "correct horse")
                       false (sim.testNow 0) (sim.testNow 0), None))
    as (Hid & Hact & _).
  - vm_compute. do 6 right. left. reflexivity.
  - split; assumption.
Defined.

(** X4.  Every record the service hands to [CreateEmailToken], in any
    interleaving, is an unconsumed activation token with a zero id; its
    [UserID] is the id that a successful [CreateUser] of the same
    transaction returned, its email the one of the record given to that
    [CreateUser], and its hash one that [Token.Hash] returned. *)
Theorem activation_tokens_link_to_created_user :
  forall (W Ctx T : Type) (store : Store W Ctx T) (deps : Deps W Ctx)
         (workTimeout : Duration) (l : list (Action Ctx)) (w : W) (tx : T)
         (t : EmailToken.t) (r : EmailToken.t * option error),
    let evs := calls (acts workTimeout l (NewService w)) in
    In (EvCreateEmailToken tx t r) evs ->
    EmailToken.ID t = 0 /\ EmailToken.Purpose t = TokenPurposeActivate
    /\ EmailToken.ConsumedAt t = None
    /\ exists u u' h tok,
         In (EvCreateUser tx u (u', None)) evs
         /\ In (EvTokenHash T tok (Ok h)) evs
         /\ EmailToken.UserID t = User.ID u'
         /\ EmailToken.Email t = User.Email u
         /\ EmailToken.TokenHash t = h.
Proof.
  intros W Ctx T store deps workTimeout l w tx t r evs HIn.
  destruct (acts_created workTimeout l (NewService w)) as [_ Ht];
    try (cbn; intros; contradiction).
  exact (Ht tx t r HIn).
Qed.

Lemma activation_tokens_link_to_created_user_witness :
  let t := EmailToken.mk 0 (sim.hashOf "t1") 1 "alice@example.com"
                         TokenPurposeActivate 0 None in
  EmailToken.ID t = 0 /\ EmailToken.Purpose t = TokenPurposeActivate.
Proof.
  intros t.
  destruct (activation_tokens_link_to_created_user
              sim.World unit db.Tx sim.store sim.deps 30 sim.twice
              (sim.world0 ["t1"; "t2"] false) tt t
              (EmailToken.mk 1 (sim.hashOf "t1") 1 "alice@example.com"
                             TokenPurposeActivate (sim.testNow 1) None, None))
    as (Hid & Hp & _).
  - vm_compute. do 7 right. left. reflexivity.
  - split; assumption.
Defined.

(** ** The invariants of the store

    The store is the model of package [db], whose code is not among the
    sources; its tests are. *)

Lemma increasing_next :
  forall ids, db.increasing ids -> db.increasing (ids ++ [db.nextID ids]).
Proof.
  intros ids [Hs Hp]. split.
  - assert (A : forall l x, StronglySorted Z.lt l ->
                            Forall (fun y => y < x) l ->
                            StronglySorted Z.lt (l ++ [x])).
    { induction l as [|y l IH]; intros x Hl Hx; simpl.
      - repeat constructor.
      - inversion Hl; subst. inversion Hx; subst. constructor.
        + now apply IH.
        + apply Forall_app. split; [assumption|]. now constructor. }
    apply A; [exact Hs|]. apply Forall_forall. apply nextID_above.
  - apply Forall_app. split; [exact Hp|]. constructor; [|constructor].
    apply nextID_positive.
Qed.

Lemma increasing_NoDup : forall ids, db.increasing ids -> NoDup ids.
Proof.
  intros ids [Hs _]. induction Hs as [|x l Hl IH Hx]; constructor.
  - intros HIn. rewrite Forall_forall in Hx. specialize (Hx x HIn). lia.
  - exact IH.
Qed.

(** Updating the row of one id keeps the emails apart when no other row
    holds the new email. *)
Lemma updated_emails_NoDup :
  forall (u : User.t) (t : Time) (us : list User.t),
    NoDup (map User.ID us) ->
    NoDup (map User.Email us) ->
    (forall x, In x us -> User.ID x <> User.ID u ->
               User.Email x <> User.Email u) ->
    NoDup (map User.Email
             (map (fun x => if User.ID x =? User.ID u
                            then db.updatedUser x u t else x) us)).
Proof.
  intros u t. induction us as [|y us IH]; intros Hid Hem Hfree; simpl.
  - constructor.
  - inversion Hid as [|? ? Hy Hid']; subst.
    inversion Hem as [|? ? Hey Hem']; subst.
    assert (Hfree' : forall x, In x us -> User.ID x <> User.ID u ->
                               User.Email x <> User.Email u).
    { intros x Hx. apply Hfree. now right. }
    constructor; [|now apply IH].
    rewrite map_map. intros HIn. apply in_map_iff in HIn.
    destruct HIn as (x & Hx & HxIn).
    destruct (User.ID y =? User.ID u) eqn:Ey;
      destruct (User.ID x =? User.ID u) eqn:Ex; cbn [db.updatedUser User.Email] in Hx.
    + apply Z.eqb_eq in Ey, Ex. apply Hy. apply in_map_iff.
      exists x. split; [congruence|exact HxIn].
    + apply Z.eqb_neq in Ex. now apply (Hfree' x HxIn Ex).
    + apply Z.eqb_neq in Ey. apply (Hfree y (or_introl eq_refl) Ey).
      now symmetry.
    + apply Hey. apply in_map_iff. exists x. split; assumption.
Qed.

Lemma exec_wellFormed :
  forall (op : db.Op) (d : db.DB),
    db.wellFormed (db.work d) ->
    db.wellFormed (db.work (snd (db.exec tt op d))).
Proof.
  intros op d Hall. pose proof Hall as (Hu & Ht & He & Hfk).
  destruct op as [u|u|v|f|t|t|id]; unfold db.exec, bind, ret.
  - unfold db.CreateUser, db.now, db.setWork.
    destruct (negb _); [exact Hall|].
    destruct (existsb _ _) eqn:E; [exact Hall|].
    cbn [fst snd db.work]. unfold db.wellFormed. cbn [db.users db.emailTokens].
    rewrite !map_app. cbn [map User.ID User.Email].
    split; [now apply increasing_next|]. split; [exact Ht|]. split.
    + apply NoDup_app_remove_l with (l := []). cbn [app].
      apply Permutation_NoDup with (l := User.Email u :: map User.Email (db.users (db.work d))).
      * apply Permutation_cons_append.
      * constructor; [|exact He]. intros HIn. apply in_map_iff in HIn.
        destruct HIn as (x & Hx & HxIn).
        assert (existsb (fun x => String.eqb (User.Email x) (User.Email u))
                        (db.users (db.work d)) = true).
        { apply existsb_exists. exists x. split; [exact HxIn|].
          now apply String.eqb_eq. }
        congruence.
    + intros tok Htok. destruct (Hfk tok Htok) as (x & Hx & Hid).
      exists x. split; [apply in_or_app; now left|exact Hid].
  - unfold db.UpdateUser, db.now, db.setWork.
    destruct (db.findUser _ _); [|exact Hall].
    destruct (existsb _ _) eqn:E; [exact Hall|].
    cbn [fst snd db.work]. unfold db.wellFormed. cbn [db.users db.emailTokens].
    assert (Hids : map User.ID
                     (map (fun x => if User.ID x =? User.ID u
                                    then db.updatedUser x u
                                           (db.nowFunc d (db.nowCalls d))
                                    else x) (db.users (db.work d)))
                   = map User.ID (db.users (db.work d))).
    { rewrite map_map. apply map_ext. intros x.
      now destruct (User.ID x =? User.ID u). }
    rewrite Hids. split; [exact Hu|]. split; [exact Ht|]. split.
    + apply updated_emails_NoDup; [now apply increasing_NoDup|exact He|].
      intros x Hx Hid Hem.
      assert (existsb (fun x => negb (User.ID x =? User.ID u)
                                && String.eqb (User.Email x) (User.Email u))
                      (db.users (db.work d)) = true).
      { apply existsb_exists. exists x. split; [exact Hx|].
        apply Z.eqb_neq in Hid. rewrite Hid. now apply String.eqb_eq. }
      congruence.
    + intros tok Htok. destruct (Hfk tok Htok) as (x & Hx & Hid).
      exists (if User.ID x =? User.ID u
              then db.updatedUser x u (db.nowFunc d (db.nowCalls d)) else x).
      split.
      * apply in_map_iff. now exists x.
      * now destruct (User.ID x =? User.ID u).
  - unfold db.FindUserByEmail. destruct (find _ _); exact Hall.
  - exact Hall.
  - unfold db.CreateEmailToken, db.now, db.setWork.
    destruct (negb _); [exact Hall|].
    destruct (db.findUser _ _) as [owner|] eqn:F; [|exact Hall].
    cbn [fst snd db.work]. unfold db.wellFormed. cbn [db.users db.emailTokens].
    rewrite !map_app. cbn [map EmailToken.ID].
    split; [exact Hu|]. split; [now apply increasing_next|].
    split; [exact He|].
    intros tok Htok. apply in_app_or in Htok. destruct Htok as [Htok|[<-|[]]].
    + now apply Hfk.
    + apply find_some in F. destruct F as [HIn Hid]. apply Z.eqb_eq in Hid.
      exists owner. split; [exact HIn|exact Hid].
  - unfold db.UpdateEmailToken, db.setWork.
    destruct (db.findToken _ _); [|exact Hall].
    destruct (negb _); [exact Hall|].
    cbn [fst snd db.work]. unfold db.wellFormed. cbn [db.users db.emailTokens].
    assert (Hids : map EmailToken.ID
                     (map (fun x => if EmailToken.ID x =? EmailToken.ID t
                                    then db.consumedToken x t else x)
                          (db.emailTokens (db.work d)))
                   = map EmailToken.ID (db.emailTokens (db.work d))).
    { rewrite map_map. apply map_ext. intros x.
      now destruct (EmailToken.ID x =? EmailToken.ID t). }
    rewrite Hids. split; [exact Hu|]. split; [exact Ht|]. split; [exact He|].
    intros tok Htok. apply in_map_iff in Htok.
    destruct Htok as (x & <- & Hx). destruct (Hfk x Hx) as (owner & Ho & Hid).
    exists owner. split; [exact Ho|].
    now destruct (EmailToken.ID x =? EmailToken.ID t).
  - unfold db.FindEmailTokenByID. destruct (db.findToken _ _); exact Hall.
Qed.

Lemma steps_cons :
  forall c cs d, db.steps (c :: cs) d = db.steps cs (db.step c d).
Proof. reflexivity. Qed.

Lemma steps_wellFormed :
  forall (cs : list db.Cmd) (d : db.DB),
    db.wellFormed (db.committed d) -> db.wellFormed (db.work d) ->
    db.wellFormed (db.committed (db.steps cs d))
    /\ db.wellFormed (db.work (db.steps cs d)).
Proof.
  induction cs as [|c cs IH]; intros d Hc Hw; [now split|].
  rewrite steps_cons. destruct c as [|op| |]; cbn [db.step].
  - apply IH; assumption.
  - apply IH.
    + now rewrite exec_committed.
    + now apply exec_wellFormed.
  - unfold db.Commit. destruct (db.badState d); apply IH; assumption.
  - apply IH; assumption.
Qed.

Lemma New_wellFormed :
  forall nowFunc, db.wellFormed (db.work (db.New nowFunc)).
Proof.
  intros nowFunc. repeat split; try constructor. intros tok [].
Qed.

Lemma reachable_wellFormed :
  forall (nowFunc : nat -> Time) (cs : list db.Cmd),
    db.wellFormed (db.committed (db.steps cs (db.New nowFunc)))
    /\ db.wellFormed (db.work (db.steps cs (db.New nowFunc))).
Proof.
  intros nowFunc cs. apply steps_wellFormed; apply (New_wellFormed nowFunc).
Qed.

Lemma find_unique :
  forall (A K : Type) (key : A -> K) (eqb : K -> K -> bool) (l : list A) (x : A),
    (forall a b, eqb a b = true <-> a = b) ->
    NoDup (map key l) -> In x l ->
    find (fun y => eqb (key y) (key x)) l = Some x.
Proof.
  intros A K key eqb l x Heq. induction l as [|y l IH]; intros Hnd HIn.
  - contradiction.
  - inversion Hnd as [|? ? Hy Hnd']; subst. cbn [find].
    destruct HIn as [->|HIn].
    + now rewrite (proj2 (Heq _ _) eq_refl).
    + destruct (eqb (key y) (key x)) eqn:E; [|now apply IH].
      apply Heq in E. exfalso. apply Hy. rewrite E. now apply in_map.
Qed.

(** X5.  In every state that [BeginTx], the operations, [Commit] and
    [Rollback] reach from a new store, no two users hold the same email,
    neither in what is persisted nor in what the transaction sees; so
    [FindUserByEmail] on the email of a stored user returns that user. *)
Theorem store_keeps_emails_unique :
  forall (nowFunc : nat -> Time) (cs : list db.Cmd),
    let d := db.steps cs (db.New nowFunc) in
    NoDup (map User.Email (db.users (db.committed d)))
    /\ NoDup (map User.Email (db.users (db.work d)))
    /\ (forall u, In u (db.users (db.work d)) ->
        fst (db.FindUserByEmail tt (User.Email u) d) = Ok u).
Proof.
  intros nowFunc cs d.
  destruct (reachable_wellFormed nowFunc cs)
    as ((_ & _ & Hc & _) & (_ & _ & Hw & _)).
  fold d in Hc, Hw. split; [exact Hc|]. split; [exact Hw|].
  intros u HIn. unfold db.FindUserByEmail.
  rewrite (find_unique _ _ User.Email String.eqb _ u String.eqb_eq Hw HIn).
  reflexivity.
Qed.

(** X6.  In every state reached from a new store, every email token,
    persisted or seen by the transaction, has a [userId] under which a user
    is found. *)
Theorem store_keeps_tokens_owned :
  forall (nowFunc : nat -> Time) (cs : list db.Cmd) (tok : EmailToken.t),
    let d := db.steps cs (db.New nowFunc) in
    (In tok (db.emailTokens (db.work d)) ->
     exists u, db.findUser (EmailToken.UserID tok) (db.users (db.work d))
               = Some u
               /\ User.ID u = EmailToken.UserID tok)
    /\ (In tok (db.emailTokens (db.committed d)) ->
        exists u, db.findUser (EmailToken.UserID tok) (db.users (db.committed d))
                  = Some u
                  /\ User.ID u = EmailToken.UserID tok).
Proof.
  intros nowFunc cs tok d.
  assert (A : forall t, db.wellFormed t -> In tok (db.emailTokens t) ->
                        exists u, db.findUser (EmailToken.UserID tok) (db.users t)
                                  = Some u
                                  /\ User.ID u = EmailToken.UserID tok).
  { intros t (_ & _ & _ & Hfk) HIn. destruct (Hfk tok HIn) as (u & Hu & Hid).
    unfold db.findUser.
    destruct (find (fun x => User.ID x =? EmailToken.UserID tok) (db.users t))
      as [x|] eqn:F.
    - exists x. split; [reflexivity|]. apply find_some in F.
      now apply Z.eqb_eq.
    - exfalso. pose proof (find_none _ _ F u Hu) as N. cbv beta in N.
      apply Z.eqb_neq in N. contradiction. }
  destruct (reachable_wellFormed nowFunc cs) as (Hc & Hw). fold d in Hc, Hw.
  split; apply A; assumption.
Qed.

Lemma filter_none :
  forall (A : Type) (p : A -> bool) (l : list A),
    (forall x, In x l -> p x = false) -> filter p l = [].
Proof.
  induction l as [|y l IH]; intros H; simpl; [reflexivity|].
  rewrite (H y (or_introl eq_refl)). apply IH. intros x Hx. apply H. now right.
Qed.

Lemma find_app_absent :
  forall (A : Type) (p : A -> bool) (l l' : list A),
    (forall x, In x l -> p x = false) -> find p (l ++ l') = find p l'.
Proof.
  induction l as [|y l IH]; intros l' H; simpl; [reflexivity|].
  rewrite (H y (or_introl eq_refl)). apply IH. intros x Hx. apply H. now right.
Qed.

Lemma NoDup_key_injective :
  forall (A K : Type) (key : A -> K) (l : list A) (x y : A),
    NoDup (map key l) -> In x l -> In y l -> key x = key y -> x = y.
Proof.
  intros A K key. induction l as [|z l IH]; intros x y Hnd Hx Hy E.
  - contradiction.
  - inversion Hnd as [|? ? Hz Hnd']; subst.
    destruct Hx as [->|Hx]; destruct Hy as [->|Hy].
    + reflexivity.
    + exfalso. apply Hz. rewrite E. now apply in_map.
    + exfalso. apply Hz. rewrite <- E. now apply in_map.
    + now apply IH.
Qed.

(** X7.  From any state: a user that [CreateUser] has just stored is the
    one user that [FindUsers] returns for its new id and the user that
    [FindUserByEmail] returns for its email; a token that
    [CreateEmailToken] has just stored is the one [FindEmailTokenByID]
    returns for its new id. *)
Theorem created_records_are_found :
  forall (d : db.DB),
    (forall u u' d',
        db.CreateUser tt u d = ((u', None), d') ->
        fst (db.FindUsers tt (UserFilter.mk (Some [User.ID u']) None None) d')
        = Ok [u']
        /\ fst (db.FindUserByEmail tt (User.Email u) d') = Ok u'
        /\ User.Email u' = User.Email u)
    /\ (forall t t' d',
        db.CreateEmailToken tt t d = ((t', None), d') ->
        fst (db.FindEmailTokenByID tt (EmailToken.ID t') d') = Ok t').
Proof.
  intros d. split.
  - intros u u' d'. unfold db.CreateUser, db.now, db.setWork.
    destruct (negb (User.ID u =? 0)); [discriminate|].
    destruct (existsb _ _) eqn:E; [discriminate|].
    intros [= <- <-].
    unfold db.FindUsers, db.FindUserByEmail.
    cbn [fst snd db.work db.users User.ID User.Email].
    set (id := db.nextID (map User.ID (db.users (db.work d)))).
    assert (Hm : forall x, db.matches (UserFilter.mk (Some [id]) None None) x
                           = (User.ID x =? id)).
    { intros x. unfold db.matches, db.memZ. cbn.
      now destruct (User.ID x =? id). }
    split; [|split; [|reflexivity]].
    + rewrite (filter_ext _ _ Hm), filter_app, filter_none.
      * cbn [filter app User.ID]. now rewrite Z.eqb_refl.
      * intros x Hx. apply Z.eqb_neq.
        pose proof (nextID_above _ _ (in_map User.ID _ _ Hx)). fold id in H. lia.
    + rewrite find_app_absent.
      * cbn [find User.Email]. now rewrite String.eqb_refl.
      * intros x Hx. destruct (String.eqb (User.Email x) (User.Email u)) eqn:F;
          [|reflexivity].
        assert (existsb (fun x => String.eqb (User.Email x) (User.Email u))
                        (db.users (db.work d)) = true)
          by (apply existsb_exists; now exists x).
        congruence.
  - intros t t' d'. unfold db.CreateEmailToken, db.now, db.setWork.
    destruct (negb (EmailToken.ID t =? 0)); [discriminate|].
    destruct (db.findUser _ _); [|discriminate].
    intros [= <- <-].
    unfold db.FindEmailTokenByID, db.findToken.
    cbn [fst snd db.work db.emailTokens EmailToken.ID].
    rewrite find_app_absent.
    + cbn [find EmailToken.ID]. now rewrite Z.eqb_refl.
    + intros x Hx. apply Z.eqb_neq.
      pose proof (nextID_above _ _ (in_map EmailToken.ID _ _ Hx)). lia.
Qed.

Lemma store_keeps_emails_unique_witness :
  fst (db.FindUserByEmail tt "jacob@example.com"
         (db.steps sim.threeCmds (db.New sim.testNow)))
  = Ok (User.mk 2 "jacob@example.com" sim.hashA true (sim.testNow 1)
                (sim.testNow 1)).
Proof.
  destruct (store_keeps_emails_unique sim.testNow sim.threeCmds)
    as (_ & _ & H).
  apply (H (User.mk 2 "jacob@example.com" sim.hashA true (sim.testNow 1)
                    (sim.testNow 1))).
  vm_compute. right. left. reflexivity.
Defined.

Lemma store_keeps_tokens_owned_witness :
  let tok := EmailToken.mk 1 sim.hashB 1 "alice@example.com"
                           TokenPurposeActivate (sim.testNow 1) None in
  exists u,
    db.findUser 1 (db.users (db.work (db.steps sim.tokenCmds
                                        (db.New sim.testNow)))) = Some u
    /\ User.ID u = 1.
Proof.
  intros tok.
  destruct (store_keeps_tokens_owned sim.testNow sim.tokenCmds tok) as [H _].
  apply H. vm_compute. left. reflexivity.
Defined.

Lemma created_records_are_found_witness :
  let alice := User.mk 1 "alice@example.com" sim.hashA false (sim.testNow 0)
                       (sim.testNow 0) in
  fst (db.FindUserByEmail tt "alice@example.com"
         (snd (db.CreateUser tt sim.newUser sim.begun)))
  = Ok alice.
Proof.
  intros alice.
  pose (d' := ltac:(let v := eval vm_compute in
                      (snd (db.CreateUser tt sim.newUser sim.begun)) in
                    exact v)).
  destruct (created_records_are_found sim.begun) as [H _].
  destruct (H sim.newUser alice d') as (_ & Hfound & _).
  - vm_compute. reflexivity.
  - exact Hfound.
Defined.


(** ** The service on the store

    [startActivation] as the source has it, run on the model of package
    [db]. *)







(* ------------------------------------------------------------------ *)
(** ** The config loader *)

Lemma confSliceOf_range_error :
  forall (T : Type) (elemFunc : string -> Result T) (elems : list string)
         (i : Z) (tgt tgt' : list T),
    snd (main.confSliceOf_range elemFunc i elems tgt)
    = snd (main.confSliceOf_range elemFunc i elems tgt').
Proof.
  intros T elemFunc. induction elems as [|elem rest IH]; intros i tgt tgt'.
  - reflexivity.
  - simpl. destruct (elemFunc elem); [apply IH|reflexivity].
Qed.

Lemma confSliceOf_error :
  forall (T : Type) (elemFunc : string -> Result T) (v : string)
         (tgt tgt' : list T) (minLen maxLen : Z),
    snd (main.confSliceOf elemFunc v tgt minLen maxLen)
    = snd (main.confSliceOf elemFunc v tgt' minLen maxLen).
Proof.
  intros T elemFunc v tgt tgt' minLen maxLen. unfold main.confSliceOf.
  pose proof (confSliceOf_range_error T elemFunc (main.Split v main.comma) 0
                tgt tgt') as E.
  destruct (main.confSliceOf_range elemFunc 0 (main.Split v main.comma) tgt)
    as [t1 [e1|]];
    destruct (main.confSliceOf_range elemFunc 0 (main.Split v main.comma) tgt')
      as [t2 [e2|]]; cbn [snd] in E; try discriminate.
  - exact E.
  - now destruct (_ || _).
Qed.

Section ConfigFacts.
Context {Key URL : Type} {lib : cmd.Library Key URL}.

(** The entries of [envMap], one by one. *)
Ltac each_entry H :=
  unfold cmd.envMap in H; cbn [In] in H;
  repeat (destruct H as [H|H]; [subst|]); [..|contradiction].

(** Undo the pairs and the matches a setter leaves. *)
Ltac settle :=
  repeat match goal with
         | |- context [match ?x with _ => _ end] => destruct x
         end.

(** Assignments to fields, computed. *)
Ltac assign :=
  cbn [fst snd cmd.mapFunc cmd.into cmd.http cmd.db cmd.auth cmd.email
       cmd.set_http cmd.set_db cmd.set_auth cmd.set_email
       cmd.set_addr cmd.set_readTimeout cmd.set_writeTimeout
       cmd.set_idleTimeout cmd.set_shutdownTimeout cmd.set_cookieKeys
       cmd.set_secureCookie cmd.set_CSRFKey cmd.set_file cmd.set_migrate
       cmd.set_encryptionKeys cmd.set_blindIndexSalt cmd.set_WorkerTimeout
       cmd.set_TokenExpiry cmd.set_BaseURL cmd.set_From
       cmd.addr cmd.readTimeout cmd.writeTimeout cmd.idleTimeout
       cmd.shutdownTimeout cmd.cookieKeys cmd.secureCookie cmd.server
       cmd.CSRFKey cmd.SecureCookie cmd.file cmd.migrate cmd.encryptionKeys
       cmd.blindIndexSalt cmd.WorkerTimeout cmd.TokenExpiry cmd.BaseURL
       cmd.From].

Lemma mapFunc_error :
  forall (e : string * cmd.envVariable Key URL) (v : string)
         (c c' : cmd.config Key URL),
    In e cmd.envMap ->
    snd (cmd.mapFunc (snd e) v c) = snd (cmd.mapFunc (snd e) v c').
Proof.
  intros e v c c' HIn. each_entry HIn;
    cbn [snd cmd.mapFunc cmd.into];
    try apply confSliceOf_error;
    unfold cmd.confURL, cmd.confDuration, cmd.confString, cmd.confBool,
           cmd.confCryptoKey, cmd.confEmailAddress;
    settle; reflexivity.
Qed.

Lemma mapFunc_commute :
  forall (x y : string * cmd.envVariable Key URL) (v w : string)
         (c : cmd.config Key URL),
    In x cmd.envMap -> In y cmd.envMap -> fst x <> fst y ->
    fst (cmd.mapFunc (snd y) w (fst (cmd.mapFunc (snd x) v c)))
    = fst (cmd.mapFunc (snd x) v (fst (cmd.mapFunc (snd y) w c))).
Proof.
  intros x y v w c Hx Hy Hne.
  destruct c as [[a rt wt it st ck sc [csrf ssc]] [f m ek salt] [wto te] [bu fr]].
  each_entry Hx; each_entry Hy; try (exfalso; apply Hne; reflexivity);
    assign; reflexivity.
Qed.

(** A setter of one value that fails leaves the config as it was. *)
Lemma mapFunc_scalar_failure :
  forall (e : string * cmd.envVariable Key URL) (v : string)
         (c : cmd.config Key URL),
    In e cmd.envMap -> cmd.sliceVariable (fst e) = false ->
    snd (cmd.mapFunc (snd e) v c) <> None ->
    fst (cmd.mapFunc (snd e) v c) = c.
Proof.
  intros e v c HIn Hs.
  destruct c as [[a rt wt it st ck sc [csrf ssc]] [f m ek salt] [wto te] [bu fr]].
  each_entry HIn; try discriminate Hs; assign;
    unfold cmd.confURL, cmd.confDuration, cmd.confString, cmd.confBool,
           cmd.confCryptoKey, cmd.confEmailAddress;
    settle; cbn [fst snd]; intros H; try reflexivity; now destruct H.
Qed.

Lemma envMap_keys_NoDup :
  NoDup (map fst (@cmd.envMap Key URL lib)).
Proof.
  unfold cmd.envMap. cbn [map fst].
  repeat (constructor;
          [let H := fresh in intros H; cbn [In] in H;
           repeat (destruct H as [H|H]; [discriminate H|]); exact H|]).
  constructor.
Qed.

Lemma stepConfig_commute :
  forall (env : cmd.Env) (x y : string * cmd.envVariable Key URL)
         (c : cmd.config Key URL),
    In x cmd.envMap -> In y cmd.envMap -> fst x <> fst y ->
    cmd.stepConfig env y (cmd.stepConfig env x c)
    = cmd.stepConfig env x (cmd.stepConfig env y c).
Proof.
  intros env x y c Hx Hy Hne. unfold cmd.stepConfig.
  destruct (env (fst x)) as [v|]; destruct (env (fst y)) as [w|];
    try reflexivity.
  now apply mapFunc_commute.
Qed.

Lemma range_config :
  forall (env : cmd.Env) (l : list (string * cmd.envVariable Key URL))
         (c : cmd.config Key URL) (errSum : option error),
    fst (cmd.configFromEnv_range env l c errSum)
    = fold_left (fun c e => cmd.stepConfig env e c) l c.
Proof.
  intros env. induction l as [|[key e] l IH]; intros c errSum.
  - reflexivity.
  - cbn [cmd.configFromEnv_range fold_left]. unfold cmd.stepConfig at 2.
    cbn [fst snd]. destruct (env key) as [v|].
    + destruct (cmd.mapFunc e v c) as [c' [err|]]; apply IH.
    + destruct (cmd.required e); apply IH.
Qed.

Lemma problems_Join :
  forall (a : option error) (e : error),
    cmd.joined e = [e] ->
    cmd.problems (errors.Join a (Some e)) = (cmd.problems a ++ [e])%list.
Proof.
  intros [a|] e He; cbn [errors.Join cmd.problems cmd.joined app].
  - now rewrite He.
  - exact He.
Qed.

Lemma range_problems :
  forall (env : cmd.Env) (l : list (string * cmd.envVariable Key URL))
         (c : cmd.config Key URL) (errSum : option error),
    incl l cmd.envMap ->
    cmd.problems (snd (cmd.configFromEnv_range env l c errSum))
    = (cmd.problems errSum ++ flat_map (cmd.problemOf env) l)%list.
Proof.
  intros env. induction l as [|[key e] l IH]; intros c errSum Hl.
  - cbn. now rewrite app_nil_r.
  - assert (Hl' : incl l cmd.envMap) by (intros x Hx; apply Hl; now right).
    assert (He : In (key, e) cmd.envMap) by (apply Hl; now left).
    cbn [cmd.configFromEnv_range flat_map cmd.problemOf].
    destruct (env key) as [v|].
    + pose proof (mapFunc_error (key, e) v c cmd.defaultConfig He) as E.
      cbn [snd] in E. rewrite <- E.
      destruct (cmd.mapFunc e v c) as [c' [err|]]; cbn [snd].
      * rewrite (IH _ _ Hl'), problems_Join by reflexivity.
        now rewrite <- app_assoc.
      * now rewrite (IH _ _ Hl').
    + destruct (cmd.required e).
      * rewrite (IH _ _ Hl'), problems_Join by reflexivity.
        now rewrite <- app_assoc.
      * now rewrite (IH _ _ Hl').
Qed.

(** Folding steps that commute gives the same over any order. *)
Lemma fold_steps_Permutation :
  forall (env : cmd.Env) (l l' : list (string * cmd.envVariable Key URL)),
    Permutation l l' ->
    incl l cmd.envMap -> NoDup (map fst l) ->
    forall c,
      fold_left (fun c e => cmd.stepConfig env e c) l c
      = fold_left (fun c e => cmd.stepConfig env e c) l' c.
Proof.
  intros env l l' HP. induction HP as [|x l l' HP IH|x y l|l l' l'' HP1 IH1 HP2 IH2];
    intros Hl Hnd c.
  - reflexivity.
  - cbn [fold_left]. apply IH.
    + intros z Hz. apply Hl. now right.
    + now inversion Hnd.
  - cbn [fold_left]. f_equal. apply stepConfig_commute.
    + apply Hl. now left.
    + apply Hl. right. now left.
    + cbn [map] in Hnd. inversion Hnd as [|? ? Hy _]; subst.
      intros E. apply Hy. left. now symmetry.
  - rewrite IH1 by assumption. apply IH2.
    + intros z Hz. apply Hl. now apply (Permutation_in _ (Permutation_sym HP1)).
    + apply (Permutation_NoDup (Permutation_map fst HP1) Hnd).
Qed.

Lemma Is_joined :
  forall (res x target : error),
    In x (cmd.joined res) -> errors.Is x target = true ->
    errors.Is res target = true.
Proof.
  induction res as [s|f a|f a e IH|a IHa b IHb]; intros x target HIn HIs;
    try (destruct HIn as [<-|[]]; exact HIs).
  cbn [cmd.joined] in HIn. apply in_app_or in HIn.
  cbn [errors.Is]. rewrite orb_true_iff. right. rewrite orb_true_iff.
  destruct HIn as [HIn|HIn]; [left; now apply (IHa x)|right; now apply (IHb x)].
Qed.

End ConfigFacts.

(** X9.  In whatever order the map [envMap] is ranged over,
    [configFromEnv] reports every problem and nothing else: the joined
    error holds one error for each required variable that is not set and
    one for each set variable whose value its [mapFunc] rejects; it is nil
    exactly when there is no such variable; a missing required variable is
    named in the text, and a rejected value's own error is found by
    [errors.Is] in the result.  No problem hides another. *)
Theorem configFromEnv_reports_every_problem :
  forall (Key URL : Type) (lib : cmd.Library Key URL)
         (order : list (string * cmd.envVariable Key URL)) (env : cmd.Env),
    Permutation order cmd.envMap ->
    let result := snd (cmd.configFromEnv order env) in
    Permutation (cmd.problems result) (flat_map (cmd.problemOf env) cmd.envMap)
    /\ (result = None <->
        forall key e, In (key, e) cmd.envMap ->
          match env key with
          | None => cmd.required e = false
          | Some v => snd (cmd.mapFunc e v cmd.defaultConfig) = None
          end)
    /\ (forall key e, In (key, e) cmd.envMap ->
          env key = None -> cmd.required e = true ->
          In (errors.Errorf
                (String.append "missing required env variable " key) [])
             (cmd.problems result))
    /\ (forall key e v err, In (key, e) cmd.envMap ->
          env key = Some v ->
          snd (cmd.mapFunc e v cmd.defaultConfig) = Some err ->
          exists res, result = Some res /\ errors.Is res err = true).
Proof.
  intros Key URL lib order env HP result.
  assert (Hincl : incl order cmd.envMap).
  { intros x Hx. now apply (Permutation_in _ HP). }
  assert (HPr : Permutation (cmd.problems result)
                            (flat_map (cmd.problemOf env) cmd.envMap)).
  { unfold result, cmd.configFromEnv.
    rewrite (range_problems env order cmd.defaultConfig None Hincl).
    cbn [cmd.problems app]. now apply Permutation_flat_map. }
  assert (Hnil : result = None <-> cmd.problems result = []).
  { destruct result as [res|]; cbn [cmd.problems]; split; try reflexivity;
      try discriminate.
    intros H. exfalso. clear - H.
    induction res; cbn [cmd.joined] in H; try discriminate.
    apply app_eq_nil in H. now apply IHres1. }
  assert (Hin : forall key e p, In (key, e) cmd.envMap ->
                                In p (cmd.problemOf env (key, e)) ->
                                In p (cmd.problems result)).
  { intros key e p He Hp. apply (Permutation_in _ (Permutation_sym HPr)).
    apply in_flat_map. now exists (key, e). }
  split; [exact HPr|]. split; [|split].
  - rewrite Hnil. split.
    + intros Hn key e He.
      assert (N : cmd.problemOf env (key, e) = []).
      { destruct (cmd.problemOf env (key, e)) as [|p ps] eqn:E; [reflexivity|].
        exfalso. assert (In p (cmd.problems result)).
        { apply (Hin key e p He). rewrite E. now left. }
        rewrite Hn in H. contradiction. }
      revert N. cbn [cmd.problemOf]. destruct (env key) as [v|].
      * destruct (snd (cmd.mapFunc e v cmd.defaultConfig)); [discriminate|reflexivity].
      * destruct (cmd.required e); [discriminate|reflexivity].
    + intros Hall.
      destruct (cmd.problems result) as [|p ps] eqn:E; [reflexivity|].
      exfalso. assert (Hp : In p (flat_map (cmd.problemOf env) cmd.envMap)).
      { apply (Permutation_in _ HPr). now left. }
      apply in_flat_map in Hp. destruct Hp as ([key e] & He & Hp).
      specialize (Hall key e He). cbn [cmd.problemOf] in Hp.
      destruct (env key) as [v|].
      * rewrite Hall in Hp. contradiction.
      * rewrite Hall in Hp. contradiction.
  - intros key e He Hnone Hreq. apply (Hin key e _ He).
    cbn [cmd.problemOf]. rewrite Hnone, Hreq. now left.
  - intros key e v err He Hv Herr.
    assert (Hp : In (errors.Wrapf (String.append "invalid env variable "
                                     (String.append key ": %w")) [] err)
                    (cmd.problems result)).
    { apply (Hin key e _ He). cbn [cmd.problemOf]. rewrite Hv, Herr. now left. }
    destruct result as [res|]; [|contradiction].
    exists res. split; [reflexivity|].
    apply (Is_joined res _ err Hp). cbn [errors.Is].
    rewrite errors_Is_refl. apply orb_true_r.
Qed.

(** X10.  The config [configFromEnv] returns does not depend on the order
    in which Go ranges over [envMap], nor on variables of the environment
    that are not keys of [envMap]; the errors joined are the same up to
    their order. *)
Theorem configFromEnv_order_independent :
  forall (Key URL : Type) (lib : cmd.Library Key URL)
         (order order' : list (string * cmd.envVariable Key URL))
         (env env' : cmd.Env),
    Permutation order cmd.envMap -> Permutation order' cmd.envMap ->
    (forall key e, In (key, e) cmd.envMap -> env key = env' key) ->
    fst (cmd.configFromEnv order env) = fst (cmd.configFromEnv order' env')
    /\ Permutation (cmd.problems (snd (cmd.configFromEnv order env)))
                   (cmd.problems (snd (cmd.configFromEnv order' env'))).
Proof.
  intros Key URL lib order order' env env' HP HP' Henv.
  assert (Hincl : incl order cmd.envMap).
  { intros x Hx. now apply (Permutation_in _ HP). }
  assert (Hincl' : incl order' cmd.envMap).
  { intros x Hx. now apply (Permutation_in _ HP'). }
  split.
  - unfold cmd.configFromEnv. rewrite !range_config.
    rewrite (fold_steps_Permutation env order order').
    + clear HP'. revert Hincl'. generalize (@cmd.defaultConfig Key URL lib).
      induction order' as [|[key e] l IH]; intros c Hl; [reflexivity|].
      cbn [fold_left]. unfold cmd.stepConfig at 2 4. cbn [fst snd].
      rewrite (Henv key e) by (apply Hl; now left).
      apply IH. intros x Hx. apply Hl. now right.
    + apply (Permutation_trans HP (Permutation_sym HP')).
    + exact Hincl.
    + apply (Permutation_NoDup (Permutation_map fst (Permutation_sym HP))).
      apply envMap_keys_NoDup.
  - unfold cmd.configFromEnv.
    rewrite (range_problems env order _ None Hincl).
    rewrite (range_problems env' order' _ None Hincl').
    cbn [cmd.problems app].
    assert (A : forall l, incl l (@cmd.envMap Key URL lib) ->
                flat_map (cmd.problemOf env) l
                = flat_map (cmd.problemOf env') l).
    { induction l as [|[key e] l IH]; intros Hl; [reflexivity|].
      cbn [flat_map cmd.problemOf].
      rewrite (Henv key e) by (apply Hl; now left).
      f_equal. apply IH. intros x Hx. apply Hl. now right. }
    apply Permutation_trans with (flat_map (cmd.problemOf env) cmd.envMap).
    + now apply Permutation_flat_map.
    + rewrite (A _ (incl_refl _)).
      apply Permutation_flat_map. now apply Permutation_sym.
Qed.

(** X11.  A variable that holds one value (every one but
    [HTTP_COOKIE_KEYS] and [DB_ENCRYPTION_KEYS]) and whose value is
    rejected leaves the config as if it were not set: the field keeps its
    default. *)
Theorem configFromEnv_invalid_value_keeps_field :
  forall (Key URL : Type) (lib : cmd.Library Key URL)
         (order : list (string * cmd.envVariable Key URL)) (env : cmd.Env)
         (key : string) (e : cmd.envVariable Key URL) (v : string),
    Permutation order cmd.envMap ->
    In (key, e) cmd.envMap ->
    cmd.sliceVariable key = false ->
    env key = Some v ->
    snd (cmd.mapFunc e v cmd.defaultConfig) <> None ->
    fst (cmd.configFromEnv order env)
    = fst (cmd.configFromEnv order (cmd.unset key env)).
Proof.
  intros Key URL lib order env key e v HP He Hs Hv Herr.
  assert (Hincl : incl order cmd.envMap).
  { intros x Hx. now apply (Permutation_in _ HP). }
  assert (Same : forall x c, In x cmd.envMap ->
                   cmd.stepConfig env x c
                   = cmd.stepConfig (cmd.unset key env) x c).
  { intros x c Hx. unfold cmd.stepConfig, cmd.unset.
    destruct (String.eqb (fst x) key) eqn:E.
    - apply String.eqb_eq in E.
      assert (X : x = (key, e)).
      { apply (NoDup_key_injective _ _ fst cmd.envMap x (key, e)
                 envMap_keys_NoDup Hx He E). }
      subst x. cbn [fst snd]. rewrite Hv.
      apply (mapFunc_scalar_failure (key, e) v c He Hs).
      pose proof (mapFunc_error (key, e) v c cmd.defaultConfig He) as X.
      cbn [snd] in *. now rewrite X.
    - reflexivity. }
  unfold cmd.configFromEnv. rewrite !range_config.
  revert Hincl. generalize (@cmd.defaultConfig Key URL lib).
  clear HP. induction order as [|x l IH]; intros c Hl; [reflexivity|].
  cbn [fold_left]. rewrite <- (Same x c) by (apply Hl; now left).
  apply IH. intros y Hy. apply Hl. now right.
Qed.

(* ------------------------------------------------------------------ *)
(** ** [confSliceOf], continued *)

Lemma Split_nonempty :
  forall v, main.Split v main.comma <> [].
Proof.
  induction v as [|c rest IH]; simpl; [discriminate|].
  destruct (Ascii.eqb c main.comma); [discriminate|].
  now destruct (main.Split rest main.comma).
Qed.

Lemma Split_length :
  forall v, List.length (main.Split v main.comma) = S (cmd.commas v).
Proof.
  induction v as [|c rest IH]; simpl; [reflexivity|].
  destruct (Ascii.eqb c main.comma); simpl; [now rewrite IH|].
  pose proof (Split_nonempty rest).
  destruct (main.Split rest main.comma); [contradiction|exact IH].
Qed.

Lemma Split_concat :
  forall v, String.concat "," (main.Split v main.comma) = v.
Proof.
  induction v as [|c rest IH]; simpl; [reflexivity|].
  pose proof (Split_nonempty rest) as Hne.
  destruct (Ascii.eqb c main.comma) eqn:E.
  - apply Ascii.eqb_eq in E. subst c.
    destruct (main.Split rest main.comma) as [|p ps]; [contradiction|].
    change (String.concat "," ("" :: p :: ps))
      with ("" ++ "," ++ String.concat "," (p :: ps))%string.
    now rewrite IH.
  - destruct (main.Split rest main.comma) as [|p ps]; [contradiction|].
    destruct ps as [|q ps].
    + cbn [String.concat] in *. now rewrite IH.
    + change (String.concat "," (String c p :: q :: ps))
        with (String c (p ++ "," ++ String.concat "," (q :: ps)))%string.
      change (String.concat "," (p :: q :: ps))
        with (p ++ "," ++ String.concat "," (q :: ps))%string in IH.
      now rewrite IH.
Qed.

Lemma Split_pieces_noComma :
  forall v, Forall (fun p => main.noComma p = true) (main.Split v main.comma).
Proof.
  induction v as [|c rest IH]; simpl.
  - now repeat constructor.
  - destruct (Ascii.eqb c main.comma) eqn:E.
    + constructor; [reflexivity|exact IH].
    + pose proof (Split_nonempty rest) as Hne.
      destruct (main.Split rest main.comma) as [|p ps]; [contradiction|].
      inversion IH; subst. constructor; [|assumption].
      simpl. now rewrite E.
Qed.

Section ConfSliceOfMore.
Variable T : Type.
Variable elemFunc : string -> Result T.

Lemma confSliceOf_range_grows :
  forall elems i tgt,
    exists ps,
      fst (main.confSliceOf_range elemFunc i elems tgt) = (tgt ++ ps)%list
      /\ (snd (main.confSliceOf_range elemFunc i elems tgt) = None ->
          List.length ps = List.length elems).
Proof.
  induction elems as [|elem rest IH]; intros i tgt; simpl.
  - exists []. now rewrite app_nil_r.
  - destruct (elemFunc elem) as [p|err].
    + destruct (IH (i + 1) (tgt ++ [p])%list) as (ps & Hps & Hlen).
      exists (p :: ps). rewrite Hps, <- app_assoc. split; [reflexivity|].
      intros Hn. simpl. now rewrite (Hlen Hn).
    + exists []. rewrite app_nil_r. split; [reflexivity|discriminate].
Qed.

Lemma confSliceOf_range_stops :
  forall good bad rest ps err i tgt,
    main.parsesTo elemFunc good ps ->
    elemFunc bad = Err err ->
    main.confSliceOf_range elemFunc i (good ++ bad :: rest) tgt
    = ((tgt ++ ps)%list,
       Some (errors.Wrapf "failed to parse element %d: %w"
                          [i + Z.of_nat (List.length good)] err)).
Proof.
  induction good as [|g good IH]; intros bad rest [|p ps] err i tgt Hg Hb;
    simpl in Hg; try contradiction.
  - cbn [app main.confSliceOf_range List.length Z.of_nat].
    now rewrite Hb, app_nil_r, Z.add_0_r.
  - destruct Hg as [Hp Hg]. cbn [app main.confSliceOf_range]. rewrite Hp.
    rewrite (IH bad rest ps err (i + 1) (tgt ++ [p])%list Hg Hb).
    rewrite <- app_assoc. cbn [List.length app].
    replace (i + 1 + Z.of_nat (List.length good))
      with (i + Z.of_nat (S (List.length good))) by lia.
    reflexivity.
Qed.

End ConfSliceOfMore.

(** X12.  [confSliceOf] only ever appends to the target; when the first
    piece that does not parse comes after [good], the pieces before it
    have already been appended and stay in the target, and the error
    names the index of the failing piece and wraps the parser's error. *)
Theorem confSliceOf_keeps_parsed_prefix :
  forall (T : Type) (elemFunc : string -> Result T) (v : string)
         (tgt : list T) (minLen maxLen : Z),
    (exists ps,
        fst (main.confSliceOf elemFunc v tgt minLen maxLen) = (tgt ++ ps)%list)
    /\ (forall good bad rest ps err,
          main.Split v main.comma = (good ++ bad :: rest)%list ->
          main.parsesTo elemFunc good ps ->
          elemFunc bad = Err err ->
          main.confSliceOf elemFunc v tgt minLen maxLen
          = ((tgt ++ ps)%list,
             Some (errors.Wrapf "failed to parse element %d: %w"
                                [Z.of_nat (List.length good)] err))
          /\ errors.Is (errors.Wrapf "failed to parse element %d: %w"
                                     [Z.of_nat (List.length good)] err) err
             = true).
Proof.
  intros T elemFunc v tgt minLen maxLen. split.
  - unfold main.confSliceOf.
    destruct (confSliceOf_range_grows T elemFunc (main.Split v main.comma) 0 tgt)
      as (ps & Hps & _).
    exists ps.
    destruct (main.confSliceOf_range elemFunc 0 (main.Split v main.comma) tgt)
      as [tgt' [err|]]; cbn [fst] in *; [exact Hps|].
    now destruct (_ || _).
  - intros good bad rest ps err Hsplit Hgood Hbad. split.
    + unfold main.confSliceOf. rewrite Hsplit.
      now rewrite (confSliceOf_range_stops T elemFunc good bad rest ps err 0 tgt
                     Hgood Hbad).
    + cbn [errors.Is]. rewrite errors_Is_refl. apply orb_true_r.
Qed.

Lemma confSliceOf_keeps_parsed_prefix_witness :
  main.confSliceOf sim.parseKey "0a1b,,ff" ["old"] 2 main.MaxInt64
  = (["old"; "0a1b"],
     Some (errors.Wrapf "failed to parse element %d: %w" [1]
                        (errors.New "empty key"))).
Proof.
  destruct (confSliceOf_keeps_parsed_prefix string sim.parseKey "0a1b,,ff"
              ["old"] 2 main.MaxInt64) as [_ H].
  destruct (H ["0a1b"] "" ["ff"] ["0a1b"] (errors.New "empty key"))
    as [Hret _].
  - reflexivity.
  - simpl. auto.
  - reflexivity.
  - exact Hret.
Defined.

(** X13.  When [confSliceOf] returns nil the target has grown by one
    element for each piece of [v], one more than [v] has commas; the
    pieces are those of [strings.Split]: joined by commas they give [v]
    back, none holds a comma, and each one parsed into an element of the
    target. *)
Theorem confSliceOf_appends_one_element_per_piece :
  forall (T : Type) (elemFunc : string -> Result T) (v : string)
         (tgt tgt' : list T) (minLen maxLen : Z),
    main.confSliceOf elemFunc v tgt minLen maxLen = (tgt', None) ->
    List.length tgt' = (List.length tgt + S (cmd.commas v))%nat
    /\ String.concat "," (main.Split v main.comma) = v
    /\ Forall (fun p => main.noComma p = true
                        /\ exists x, elemFunc p = Ok x /\ In x tgt')
              (main.Split v main.comma).
Proof.
  intros T elemFunc v tgt tgt' minLen maxLen H.
  split; [|split; [apply Split_concat|]].
  - unfold main.confSliceOf in H.
    destruct (confSliceOf_range_grows T elemFunc (main.Split v main.comma) 0 tgt)
      as (ps & Hps & Hlen).
    destruct (main.confSliceOf_range elemFunc 0 (main.Split v main.comma) tgt)
      as [t1 [err|]]; [discriminate|].
    cbn [fst snd] in *. destruct (_ || _); [discriminate|].
    injection H as <-. subst t1.
    rewrite length_app, (Hlen eq_refl), Split_length. reflexivity.
  - unfold main.confSliceOf in H.
    assert (A : forall elems i t0 t1,
               main.confSliceOf_range elemFunc i elems t0 = (t1, None) ->
               Forall (fun p => exists x, elemFunc p = Ok x /\ In x t1) elems
               /\ forall x, In x t0 -> In x t1).
    { induction elems as [|elem rest IH]; intros i t0 t1 Hr; simpl in Hr.
      - injection Hr as <-. split; [constructor|auto].
      - destruct (elemFunc elem) as [p|err] eqn:E; [|discriminate].
        destruct (IH _ _ _ Hr) as [Hall Hkeep]. split.
        + constructor; [|exact Hall]. exists p. split; [exact E|].
          apply Hkeep. apply in_or_app. right. now left.
        + intros x Hx. apply Hkeep. apply in_or_app. now left. }
    destruct (main.confSliceOf_range elemFunc 0 (main.Split v main.comma) tgt)
      as [t1 [err|]] eqn:R; [discriminate|].
    destruct (_ || _); [discriminate|]. injection H as <-.
    destruct (A _ _ _ _ R) as [Hall _].
    pose proof (Split_pieces_noComma v) as Hnc.
    rewrite Forall_forall in *. intros p Hp. split; [now apply Hnc|now apply Hall].
Qed.

Lemma confSliceOf_appends_one_element_per_piece_witness :
  List.length ["old"; "0a1b"; "ff"] = (List.length ["old"] + S (cmd.commas "0a1b,ff"))%nat.
Proof.
  destruct (confSliceOf_appends_one_element_per_piece string sim.parseKey
              "0a1b,ff" ["old"] ["old"; "0a1b"; "ff"] 2 main.MaxInt64)
    as [Hlen _].
  - reflexivity.
  - exact Hlen.
Defined.

Lemma configFromEnv_reports_every_problem_witness :
  In (errors.Errorf "missing required env variable EMAIL_FROM" [])
     (cmd.problems
        (snd (cmd.configFromEnv cmd.envMap
                (simenv.environ [("HTTP_CSRF_KEY", "k")])))).
Proof.
  pose proof (configFromEnv_reports_every_problem
                string (string * string) simenv.library cmd.envMap
                (simenv.environ [("HTTP_CSRF_KEY", "k")])
                (Permutation_refl _)) as H.
  cbv zeta in H. destruct H as (_ & _ & Hmissing & _).
  eapply (Hmissing "EMAIL_FROM").
  - unfold cmd.envMap. do 15 right. left. reflexivity.
  - reflexivity.
  - reflexivity.
Defined.

Lemma configFromEnv_order_independent_witness :
  fst (cmd.configFromEnv (rev cmd.envMap)
         (simenv.environ simenv.requiredVars))
  = fst (cmd.configFromEnv cmd.envMap
           (simenv.environ (("HOME", "/root") :: simenv.requiredVars))).
Proof.
  apply (configFromEnv_order_independent
           string (string * string) simenv.library).
  - apply Permutation_sym, Permutation_rev.
  - apply Permutation_refl.
  - intros key e HIn. unfold cmd.envMap in HIn. cbn [In] in HIn.
    repeat (destruct HIn as [HIn|HIn]; [injection HIn as <- _; reflexivity|]).
    contradiction.
Defined.

Lemma configFromEnv_invalid_value_keeps_field_witness :
  fst (cmd.configFromEnv cmd.envMap
         (simenv.environ (("HTTP_READ_TIMEOUT", "-1s") :: simenv.requiredVars)))
  = fst (cmd.configFromEnv cmd.envMap
           (cmd.unset "HTTP_READ_TIMEOUT"
              (simenv.environ
                 (("HTTP_READ_TIMEOUT", "-1s") :: simenv.requiredVars)))).
Proof.
  eapply (configFromEnv_invalid_value_keeps_field
            string (string * string) simenv.library cmd.envMap _
            "HTTP_READ_TIMEOUT" _ "-1s").
  - apply Permutation_refl.
  - unfold cmd.envMap. do 2 right. left. reflexivity.
  - reflexivity.
  - reflexivity.
  - discriminate.
Defined.

(* ------------------------------------------------------------------ *)
(** ** The middlewares of the web server *)

Lemma wrapFrom_prefix :
  forall (Handler : Type) (outer inner : list (Handler -> Handler))
         (handler : Handler),
    web.wrapFrom (outer ++ inner) (List.length outer) handler
    = Some (fold_right (fun mw h => mw h) handler outer).
Proof.
  intros Handler outer. induction outer as [|mw outer IH] using rev_ind;
    intros inner handler.
  - reflexivity.
  - rewrite length_app, Nat.add_comm. cbn [List.length Nat.add web.wrapFrom].
    rewrite <- app_assoc. cbn [app].
    rewrite nth_error_app2, Nat.sub_diag by apply le_n. cbn [nth_error].
    rewrite IH, fold_right_app. reflexivity.
Qed.

(** X14.  The loop of [NewServer] over the middlewares never indexes out
    of range and nests them in the order of the list, the first one
    outermost; with [NewServer]'s own list a request reaches the CSRF
    protection first, then the session, then the mux. *)
Theorem NewServer_first_middleware_outermost :
  forall (Handler : Type) (mws : list (Handler -> Handler))
         (csrfMW session : Handler -> Handler) (mux : Handler),
    web.wrapped mws mux = Some (fold_right (fun mw h => mw h) mux mws)
    /\ web.wrapped (web.middlewares csrfMW session) mux
       = Some (csrfMW (session mux))
    /\ (forall mw, web.wrapped (mw :: mws) mux
                   = option_map mw (web.wrapped mws mux)).
Proof.
  intros Handler mws csrfMW session mux.
  assert (A : forall l, web.wrapped l mux
                        = Some (fold_right (fun mw h => mw h) mux l)).
  { intros l. unfold web.wrapped.
    rewrite <- (app_nil_r l) at 1. apply wrapFrom_prefix. }
  split; [apply A|]. split; [reflexivity|].
  intros mw. now rewrite !A.
Qed.
